(** * Release content extraction pipeline (cli/lib/extract.js)

    A shallow embedding of [cli/lib/extract.js]: the decision whether a
    release is re-imported ([resolveRelease]), the two extraction strategies
    ([unpackTarball], [unpackTree]), the navigation rewrite ([getNav]), the
    changelog merge ([writeChangelog]) and the orchestrator ([unpackRelease]).

    Conventions of the embedding.
    - JavaScript strings are [string]; [undefined]/[null] is [None].
    - An [async] function is a computation in the monad [M]: it yields either
      a value or a thrown exception, together with the filesystem operations
      issued by the time it settles, in issue order.
    - [unpackTarball] settles when the source stream ends, not when [tar.x]
      is done: what [tar.x] still has to do then is kept apart, as the pending
      operations ([tarPending], [extractPending]); they are issued later, in
      their own order, at times the code does not control.
    - The collaborators the file requires ([./gh], [./transform], [pacote],
      [tar], [yaml]) are the fields of an environment record [Env].
    - [path] is Node's POSIX flavour ([sep] is ["/"]). *)

From Stdlib Require Import String Ascii List Bool Arith Lia Permutation.
Import ListNotations.
Local Open Scope string_scope.
Local Open Scope list_scope.

(** ** Node's [path] module, POSIX flavour *)

Module Path.

Definition sep : ascii := "/"%char.

Definition is_sep (c : ascii) : bool := Ascii.eqb c sep.

(** [String.prototype.split] with a one-character separator. *)
Fixpoint split (s : string) : list string :=
  match s with
  | EmptyString => [EmptyString]
  | String c rest =>
      if is_sep c then EmptyString :: split rest
      else match split rest with
           | h :: t => String c h :: t
           | [] => [String c EmptyString]
           end
  end.

Definition nonempty (s : string) : bool := negb (s =? "").

Definition startsWithSep (s : string) : bool :=
  match s with
  | String c _ => is_sep c
  | EmptyString => false
  end.

Fixpoint endsWithSep (s : string) : bool :=
  match s with
  | EmptyString => false
  | String c EmptyString => is_sep c
  | String _ rest => endsWithSep rest
  end.

(** [normalizeString]: the segments of the path are pushed on [res] (kept in
    reverse); empty and ["."] segments are dropped, [".."] pops the last
    segment unless there is none or it is itself [".."]. *)
Fixpoint normalizeString (allowAboveRoot : bool) (segs res : list string)
  : list string :=
  match segs with
  | [] => rev res
  | seg :: rest =>
      if (seg =? "") || (seg =? ".") then normalizeString allowAboveRoot rest res
      else if seg =? ".." then
        match res with
        | top :: res' =>
            if top =? ".." then
              normalizeString allowAboveRoot rest
                (if allowAboveRoot then ".." :: res else res)
            else normalizeString allowAboveRoot rest res'
        | [] =>
            normalizeString allowAboveRoot rest
              (if allowAboveRoot then [".."] else [])
        end
      else normalizeString allowAboveRoot rest (seg :: res)
  end.

Definition normalize (path : string) : string :=
  if path =? "" then "."
  else
    let isAbsolute := startsWithSep path in
    let trailingSeparator := endsWithSep path in
    let p := String.concat "/" (normalizeString (negb isAbsolute) (split path) []) in
    if p =? "" then
      if isAbsolute then "/" else if trailingSeparator then "./" else "."
    else
      (if isAbsolute then "/" else "") ++ p ++ (if trailingSeparator then "/" else "").

(** [path.join(...args)]. *)
Definition join (args : list string) : string :=
  match filter nonempty args with
  | [] => "."
  | parts => normalize (String.concat "/" parts)
  end.

(** The backwards scan of [dirname]: [r] holds the characters at indices
    [length - 1] down to [1]; the answer is what is left of [r] below the
    first separator met after a non-separator. *)
Fixpoint dirname_scan (r : list ascii) (matchedSlash : bool) : option (list ascii) :=
  match r with
  | [] => None
  | c :: r' =>
      if is_sep c then
        if matchedSlash then dirname_scan r' true else Some r'
      else dirname_scan r' false
  end.

Definition dirname (path : string) : string :=
  match path with
  | EmptyString => "."
  | String c0 rest =>
      let hasRoot := is_sep c0 in
      match dirname_scan (rev (list_ascii_of_string rest)) true with
      | None => if hasRoot then "/" else "."
      | Some r' =>
          match r' with
          | [] => if hasRoot then "//" else String c0 EmptyString
          | _ => String c0 (string_of_list_ascii (rev r'))
          end
      end
  end.

Fixpoint dropSeps (r : list ascii) : list ascii :=
  match r with
  | c :: r' => if is_sep c then dropSeps r' else r
  | [] => []
  end.

Fixpoint takeSegment (r : list ascii) : list ascii :=
  match r with
  | c :: r' => if is_sep c then [] else c :: takeSegment r'
  | [] => []
  end.

(** [posix.basename(path)] without a suffix argument. *)
Definition basename (path : string) : string :=
  string_of_list_ascii
    (rev (takeSegment (dropSeps (rev (list_ascii_of_string path))))).

End Path.

(** ** Data model *)

(** The package manifest of a release that is not branch based. *)
Record Manifest := mkManifest {
  _resolved : option string;
  _from : option string;
}.

Record Release := mkRelease {
  id : string;
  version : string;
  branch : string;
  manifest : option Manifest;
  resolved : option string;
  spec : option string;
  useBranch : bool;
  prerelease : bool;
  url : string;
  urlPrefix : string;
  src : option string;
}.

Definition set_resolved (r : Release) (v : option string) : Release :=
  mkRelease (id r) (version r) (branch r) (manifest r) v (spec r)
            (useBranch r) (prerelease r) (url r) (urlPrefix r) (src r).

Definition set_spec (r : Release) (v : option string) : Release :=
  mkRelease (id r) (version r) (branch r) (manifest r) (resolved r) v
            (useBranch r) (prerelease r) (url r) (urlPrefix r) (src r).

Definition set_src (r : Release) (v : option string) : Release :=
  mkRelease (id r) (version r) (branch r) (manifest r) (resolved r) (spec r)
            (useBranch r) (prerelease r) (url r) (urlPrefix r) v.

Set Warnings "-register-all".

(** A node of the navigation description. [children] is [None] when the
    property is absent (or null), [Some []] when it is an empty sequence. *)
Inductive NavNode := mkNavNode {
  title : string;
  nav_url : string;
  shortName : option string;
  description : option string;
  children : option (list NavNode);
}.

(** The object [getNav] returns. *)
Record Nav := mkNav {
  nav_path : option string;
  nav_children : option (list NavNode);
}.

Record FileRecord := mkFile { file_path : string; file_sha : string }.

Record DirEntry := mkDirEntry { entry_name : string; entry_sha : string }.

(** A regular-file entry of the package tarball. *)
Record TarEntry := mkTarEntry { entry_path : string; entry_data : string }.

Record Frontmatter := mkFrontmatter {
  github_path : option string;
  fm_title : string;
  fm_shortName : option string;
}.

(** The options object handed to [Transform]. *)
Record TransformOpts := mkTransformOpts {
  t_path : string;
  t_release : Release;
  t_frontmatter : option Frontmatter;
}.

(** ** Exceptions, filesystem operations and the monad of [async] code *)

Inductive exn :=
| TypeError (msg : string)          (* property access on undefined *)
| Error (msg : string)              (* [throw new Error(msg)] *)
| Rejected (msg : string).          (* a collaborator's promise rejected *)

Inductive outcome (A : Type) :=
| Return (a : A)
| Throw (e : exn).
Arguments Return {A} a.
Arguments Throw {A} e.

Inductive fs_op :=
| Rm (path : string)                        (* fs.rm(path, {force, recursive}) *)
| Mkdir (path : string)                     (* fs.mkdir(path, {recursive}) *)
| WriteFile (path : string) (data : string). (* fs.writeFile / tar's file write *)

(** A computation: its outcome and the filesystem operations it issued. *)
Definition M (A : Type) : Type := outcome A * list fs_op.

Definition ret {A} (a : A) : M A := (Return a, []).
Definition throw {A} (e : exn) : M A := (Throw e, []).
Definition tell (ops : list fs_op) : M unit := (Return tt, ops).
Definition lift {A} (o : outcome A) : M A := (o, []).

Definition bind {A B} (m : M A) (f : A -> M B) : M B :=
  match m with
  | (Return a, t) => let (r, t') := f a in (r, t ++ t')
  | (Throw e, t) => (Throw e, t)
  end.

Notation "x <- m ;; k" := (bind m (fun x => k))
  (at level 61, m at next level, right associativity).
Notation "m ;;; k" := (bind m (fun _ => k))
  (at level 61, right associativity).

Definition trace {A} (m : M A) : list fs_op := snd m.
Definition result {A} (m : M A) : outcome A := fst m.

(** ** The collaborators *)

Record Env := mkEnv {
  (* ./gh *)
  getLatestSha : string -> outcome string;
  getDirectory : string -> string -> outcome (list DirEntry);
  getAllFiles : string -> outcome (list FileRecord);
  getFileBySha : string -> outcome string;
  getFileByRef : string -> option string -> outcome string;
  pathExists : string -> string -> outcome (option string);
  (* yaml.parse *)
  yaml_parse : string -> outcome (option (list NavNode));
  (* ./transform: the stream variant and Transform.sync *)
  transform : string -> TransformOpts -> string;
  (* pacote.tarball.stream(spec, _, {resolved}): the entries delivered by the
     stream and how it terminated ('end' or 'error') *)
  tarball : option string -> option string -> list TarEntry * option exn;
  (* the order in which the concurrent gh.getFile calls of unpackTree settle *)
  settle_order : list FileRecord -> list FileRecord;
  (* how many of the entries it extracts tar.x has dealt with (path pushed on
     result, file write issued) when the promise of unpackTarball settles *)
  tar_settled : nat;
}.

(** [Promise.all] over computations listed in the order in which their
    effects take place: every computation runs, also after an earlier one has
    thrown; the first exception wins, otherwise the values are collected. *)
Fixpoint all {A} (ms : list (M A)) : M (list A) :=
  match ms with
  | [] => ret []
  | m :: rest =>
      let (r', t') := all rest in
      match m with
      | (Return a, t) =>
          (match r' with Return l => Return (a :: l) | Throw e => Throw e end, t ++ t')
      | (Throw e, t) => (Throw e, t ++ t')
      end
  end.

(** [[...new Set(xs)]]: the distinct elements in order of first occurrence. *)
Definition set_add (acc : list string) (x : string) : list string :=
  if existsb (String.eqb x) acc then acc else acc ++ [x].

Definition uniq (xs : list string) : list string := fold_left set_add xs [].

(** [Array.prototype.slice(start, stop)] for [0 <= start <= stop]. *)
Definition slice {A} (start stop : nat) (l : list A) : list A :=
  firstn (stop - start) (skipn start l).

Definition option_eqb (a b : option string) : bool :=
  match a, b with
  | Some x, Some y => x =? y
  | None, None => true
  | _, _ => false
  end.

(** ** unpackTarball *)

(** The [filter] callback handed to [tar.x]. *)
Definition tarFilter (dir path : string) : bool :=
  let strip := 1 in
  let dirParts := Path.split dir in
  let pathParts := Path.split path in
  let prefixParts := slice strip (length dirParts + strip) pathParts in
  Path.join prefixParts =? Path.join dirParts.

(** tar's [strip] option: the leading path elements are removed, and a path
    with fewer elements is silently skipped. *)
Definition tarStrip (n : nat) (path : string) : option string :=
  let parts := Path.split path in
  if Nat.ltb (length parts) n then None
  else Some (String.concat "/" (skipn n parts)).

(** [stripAbsolutePath]: tar takes the leading separators off a path. *)
Fixpoint dropRoot (s : string) : string :=
  match s with
  | EmptyString => EmptyString
  | String c rest => if Path.is_sep c then dropRoot rest else s
  end.

(** What tar does with a stripped path when [preservePaths] is not set: a
    path with a [..] element is refused; the root is taken off; and a regular
    file that would take the place of [cwd] itself is refused. *)
Definition tarCheckPath (cwd path : string) : option string :=
  if existsb (String.eqb "..") (Path.split path) then None
  else
    let path := dropRoot path in
    if Path.join [cwd; path] =? Path.join [cwd] then None
    else Some path.

(** How tar writes an accepted file: it makes the directory of the file,
    unless that is [cwd], and writes what the [transform] stream yields. *)
Definition tarWrite (E : Env) (release : Release) (cwd path data : string)
  : list fs_op :=
  let target := Path.join [cwd; path] in
  let parent := Path.dirname target in
  (if parent =? Path.join [cwd] then [] else [Mkdir parent])
    ++ [WriteFile target (transform E data (mkTransformOpts path release None))].

(** [tar.x({cwd, strip, transform, filter})] over the regular-file entries of
    the stream, in stream order: an entry the filter rejects is skipped; a
    surviving entry has its path stripped and checked, is handed to the
    [transform] callback (which records the path in [result]) and is written
    below [cwd]. Each element is the path pushed on [result] with the
    filesystem operations the entry causes. *)
Fixpoint extract (E : Env) (release : Release) (cwd dir : string)
         (entries : list TarEntry) : list (string * list fs_op) :=
  match entries with
  | [] => []
  | e :: rest =>
      if tarFilter dir (entry_path e) then
        match tarStrip (length (Path.split dir) + 1) (entry_path e) with
        | Some stripped =>
            match tarCheckPath cwd stripped with
            | Some path =>
                (path, tarWrite E release cwd path (entry_data e))
                :: extract E release cwd dir rest
            | None => extract E release cwd dir rest
            end
        | None => extract E release cwd dir rest
        end
      else extract E release cwd dir rest
  end.

(** The promise settles on the ['end'] or ['error'] of the source stream; the
    stream piped into [tar.x] is not awaited. What is returned is the array
    [result] as it stands then: the paths of the entries tar has dealt with
    so far. *)
Definition unpackTarball (E : Env) (release : Release) (cwd dir : string)
  : M (list string) :=
  let (entries, err) := tarball E (spec release) (resolved release) in
  let extracted := extract E release cwd dir entries in
  let settled := firstn (tar_settled E) extracted in
  tell (flat_map snd settled) ;;;
  match err with
  | Some e => throw e
  | None => ret (map fst settled)
  end.

(** What [tar.x] still does after [unpackTarball] has settled: the paths it
    will yet push on [result], and the filesystem operations it will yet
    issue. *)
Definition tarPendingPaths (E : Env) (release : Release) (cwd dir : string)
  : list string :=
  map fst (skipn (tar_settled E)
                 (extract E release cwd dir
                          (fst (tarball E (spec release) (resolved release))))).

Definition tarPending (E : Env) (release : Release) (cwd dir : string)
  : list fs_op :=
  flat_map snd (skipn (tar_settled E)
                      (extract E release cwd dir
                               (fst (tarball E (spec release) (resolved release))))).

(** ** unpackTree *)

Definition fetchAndWrite (E : Env) (release : Release) (cwd : string)
           (file : FileRecord) : M unit :=
  buffer <- lift (getFileBySha E (file_sha file)) ;;
  tell [WriteFile (Path.join [cwd; file_path file])
                  (transform E buffer (mkTransformOpts (file_path file) release None))].

Definition treeDirs (cwd : string) (files : list FileRecord) : list string :=
  uniq (map (fun f => Path.join [cwd; Path.dirname (file_path f)]) files).

Definition unpackTree (E : Env) (release : Release) (cwd dir : string)
  : M (list string) :=
  let dirParts := Path.split dir in
  let child := last dirParts "" in
  let parent := Path.join (removelast dirParts) in
  paths <- lift (getDirectory E (branch release) parent) ;;
  sha <- match find (fun p => entry_name p =? child) paths with
         | Some p => ret (entry_sha p)
         | None => throw (TypeError "Cannot read properties of undefined (reading 'sha')")
         end ;;
  files <- lift (getAllFiles E sha) ;;
  let dirs := treeDirs cwd files in
  all (map (fun d => tell [Mkdir d]) dirs) ;;;
  all (map (fetchAndWrite E release cwd) (settle_order E files)) ;;;
  ret (map file_path files).

(** ** getNav *)

Fixpoint rewriteNode (relurl : string) (n : NavNode) : NavNode :=
  match n with
  | mkNavNode t u s d c =>
      mkNavNode t (relurl ++ u) s d
                (match c with
                 | None => None
                 | Some l => Some (map (rewriteNode relurl) l)
                 end)
  end.

(** [nodes?.map(...)]. *)
Definition rewriteUrls (relurl : string) (nodes : option (list NavNode))
  : option (list NavNode) :=
  match nodes with
  | None => None
  | Some l => Some (map (rewriteNode relurl) l)
  end.

Definition getNav (E : Env) (path : option string) (release : Release) : M Nav :=
  nav <- lift (getFileByRef E (branch release) path) ;;
  parsed <- lift (yaml_parse E nav) ;;
  ret (mkNav path (rewriteUrls (url release) parsed)).

(** ** writeChangelog *)

Definition backslash : ascii := ascii_of_nat 92.
Definition gt : ascii := ascii_of_nat 62.

(** [s.replace(/([^\\])>/g, '$1\\>')]: the scan tries a match at the current
    position; a match consumes two characters (one that is not a backslash,
    then [>]) and the scan resumes after them; otherwise one character is
    copied and the scan moves on by one. *)
Fixpoint escapeGt (s : string) : string :=
  match s with
  | EmptyString => EmptyString
  | String c t =>
      match t with
      | String c' rest =>
          if negb (Ascii.eqb c backslash) && Ascii.eqb c' gt
          then String c (String backslash (String gt (escapeGt rest)))
          else String c (escapeGt t)
      | EmptyString => String c EmptyString
      end
  end.

Definition set_children (n : NavNode) (c : option (list NavNode)) : NavNode :=
  mkNavNode (title n) (nav_url n) (shortName n) (description n) c.

Definition changelogLeaf (release : Release) (contentPath : string) : NavNode :=
  mkNavNode "Changelog" (url release ++ "/" ++ contentPath) None
            (Some "Changelog notes for each version") None.

(** [nav.children[nav.children.length - 1].children.push(leaf)]. On an empty
    array the index is -1 and the element read is undefined. *)
Definition pushChangelog (leaf : NavNode) (nav : Nav) : outcome Nav :=
  match nav_children nav with
  | None => Throw (TypeError "Cannot read properties of undefined (reading 'length')")
  | Some secs =>
      match secs with
      | [] => Throw (TypeError "Cannot read properties of undefined (reading 'children')")
      | _ :: _ =>
          match nth_error secs (length secs - 1) with
          | None => Throw (TypeError "Cannot read properties of undefined (reading 'children')")
          | Some sec =>
              match children sec with
              | None => Throw (TypeError "Cannot read properties of undefined (reading 'push')")
              | Some cs =>
                  Return (mkNav (nav_path nav)
                                (Some (removelast secs
                                         ++ [set_children sec (Some (cs ++ [leaf]))])))
              end
          end
      end
  end.

Definition writeChangelog (E : Env) (release : Release) (nav : Nav)
           (cwd srcPath contentPath : string) : M Nav :=
  let title := "Changelog" in
  changelog <- lift (getFileByRef E (branch release) (Some srcPath)) ;;
  tell [WriteFile (Path.join [cwd; (contentPath ++ ".md")%string])
                  (transform E (escapeGt changelog)
                     (mkTransformOpts contentPath release
                        (Some (mkFrontmatter (Some srcPath) title None))))] ;;;
  lift (pushChangelog (changelogLeaf release contentPath) nav).

(** ** resolveRelease *)

(** Lines 139-144: where the content address of the release comes from. *)
Definition resolveIds (E : Env) (release : Release) : outcome Release :=
  if useBranch release then
    match getLatestSha E (branch release) with
    | Return sha => Return (set_resolved release (Some sha))
    | Throw e => Throw e
    end
  else
    match manifest release with
    | None => Throw (TypeError "Cannot read properties of undefined (reading '_resolved')")
    | Some m => Return (set_spec (set_resolved release (_resolved m)) (_from m))
    end.

(** The first parameter is destructured into [current] and the rest object
    [release], which has no [resolved] property. [None] is the [null] the
    function returns when the release is skipped. *)
Definition resolveRelease (E : Env) (_release : Release)
           (force opt_prerelease : bool) : outcome (option Release) :=
  let current := resolved _release in
  let release := set_resolved _release None in
  if prerelease release && negb opt_prerelease then Return None
  else
    match resolveIds E release with
    | Throw e => Throw e
    | Return release =>
        if option_eqb (resolved release) current && negb force then Return None
        else Return (Some release)
    end.

(** ** unpackRelease *)

Definition builtPath : string := Path.join ["docs"; "content"].
Definition srcPath : string := Path.join ["docs"; "lib"; "content"].

(** [await a ?? await b]: [b] is evaluated only when [a] is nullish. *)
Definition nullish_or {A} (a : outcome (option A)) (b : outcome (option A))
  : outcome (option A) :=
  match a with
  | Return None => b
  | _ => a
  end.

Definition dquote : string := String (ascii_of_nat 34) EmptyString.
Definition newline : string := String (ascii_of_nat 10) EmptyString.

Definition indexBody : string :=
  ("<Index depth=" ++ dquote ++ "1" ++ dquote ++ " />" ++ newline)%string.

(** The value bound to [navSection]: [Array.prototype.find] yields the first
    matching element, or undefined. *)
Definition findNavSection (release : Release) (baseNav : list NavNode)
           (nav : Nav) (dir : string) : outcome (option NavNode) :=
  if Path.nonempty dir then
    match nav_children nav with
    | None => Throw (TypeError "Cannot read properties of undefined (reading 'find')")
    | Some cs => Return (find (fun c => Path.basename (nav_url c) =? dir) cs)
    end
  else Return (find (fun c => Path.basename (nav_url c) =? urlPrefix release) baseNav).

(** The callback of [dirs.map] in lines 212-233. *)
Definition writeIndex (E : Env) (release : Release) (baseNav : list NavNode)
           (nav : Nav) (cwd dir : string) : M string :=
  let path := Path.join [dir; "index.mdx"] in
  navSection <- lift (findNavSection release baseNav nav dir) ;;
  match navSection with
  | None => throw (TypeError "Cannot read properties of undefined (reading 'title')")
  | Some n =>
      tell [WriteFile (Path.join [cwd; path])
                      (transform E indexBody
                         (mkTransformOpts path release
                            (Some (mkFrontmatter (nav_path nav) (title n) (shortName n)))))] ;;;
      ret path
  end.

(** Line 205. *)
Definition indexDirs (files : list string) : list string :=
  "" :: uniq (map Path.dirname files).

(** Lines 195-203. *)
Definition extractFiles (E : Env) (release : Release) (cwd : string)
  : M (list string) :=
  if useBranch release then
    match src release with
    | Some dir => unpackTree E release cwd dir
    | None => throw (TypeError "Cannot read properties of undefined (reading 'split')")
    end
  else unpackTarball E release cwd builtPath.

(** The operations of the extraction that are still to come when
    [extractFiles] has settled. *)
Definition extractPending (E : Env) (release : Release) (cwd : string)
  : list fs_op :=
  if useBranch release then [] else tarPending E release cwd builtPath.

Record Imported := mkImported {
  imp_release : Release;
  imp_nav : option (list NavNode);
}.

(** [None] is the undefined returned when the release is skipped. *)
Definition unpackRelease (E : Env) (_release : Release) (contentPath : string)
           (baseNav : list NavNode) (force opt_prerelease : bool)
  : M (option Imported) :=
  resolved <- lift (resolveRelease E _release force opt_prerelease) ;;
  match resolved with
  | None => ret None
  | Some release =>
      let cwd := Path.join [contentPath; id release] in
      tell [Rm cwd] ;;;
      tell [Mkdir cwd] ;;;
      src <- lift (nullish_or (pathExists E (branch release) srcPath)
                              (pathExists E (branch release) builtPath)) ;;
      match src with
      | None => throw (Error ("Could not find source dir for " ++ id release)%string)
      | Some src =>
          if negb (Path.nonempty src)
          then throw (Error ("Could not find source dir for " ++ id release)%string)
          else
            let release := set_src release (Some src) in
            navPath <- lift (nullish_or
                               (pathExists E (branch release) (Path.join [srcPath; "nav.yml"]))
                               (pathExists E (branch release) (Path.join ["docs"; "nav.yml"]))) ;;
            nav <- getNav E navPath release ;;
            files <- extractFiles E release cwd ;;
            let dirs := indexDirs files in
            indexes <- all (map (writeIndex E release baseNav nav cwd) dirs) ;;
            nav <- writeChangelog E release nav cwd "CHANGELOG.md"
                                  (Path.join ["using-npm"; "changelog"]) ;;
            ret (Some (mkImported release (nav_children nav)))
      end
  end.

(** ** Reading the embedding *)

Definition op_path (op : fs_op) : string :=
  match op with
  | Rm p => p
  | Mkdir p => p
  | WriteFile p _ => p
  end.

Definition is_write (op : fs_op) : bool :=
  match op with
  | WriteFile _ _ => true
  | _ => false
  end.

(** The node reached from a sequence of nodes by a non-empty list of child
    indices. *)
Fixpoint node_at (p : list nat) (nodes : option (list NavNode)) : option NavNode :=
  match p with
  | [] => None
  | i :: p' =>
      match nodes with
      | None => None
      | Some l =>
          match nth_error l i with
          | None => None
          | Some n =>
              match p' with
              | [] => Some n
              | _ :: _ => node_at p' (children n)
              end
          end
      end
  end.

Definition child_count (nodes : option (list NavNode)) : option nat :=
  option_map (@length NavNode) nodes.

(** A path segment that [path.join] leaves alone. *)
Definition plain (seg : string) : Prop :=
  seg <> "" /\ seg <> "." /\ seg <> ".." .

Definition plain_dir (dir : string) : Prop :=
  Forall plain (Path.split dir).

Definition segments_eqb (a b : list string) : bool :=
  if list_eq_dec string_dec a b then true else false.

(** Does the text still hold a [>] that no backslash precedes? *)
Fixpoint has_bare_gt_after (prev : ascii) (s : string) : bool :=
  match s with
  | EmptyString => false
  | String c rest =>
      (Ascii.eqb c gt && negb (Ascii.eqb prev backslash))
      || has_bare_gt_after c rest
  end.

Definition has_bare_gt (s : string) : bool :=
  match s with
  | EmptyString => false
  | String c rest => Ascii.eqb c gt || has_bare_gt_after c rest
  end.

(** The last child of the last top-level section of a navigation. *)
Definition lastSectionLastChild (nav : Nav) : option NavNode :=
  match nav_children nav with
  | None => None
  | Some secs =>
      match nth_error secs (length secs - 1) with
      | None => None
      | Some sec =>
          match children sec with
          | None => None
          | Some cs => nth_error cs (length cs - 1)
          end
      end
  end.

(** What the archive filter is meant to compute: the segments after the
    wrapper directory, up to the depth of [dir], are those of [dir]. *)
Definition underDir (dir path : string) : bool :=
  let n := length (Path.split dir) in
  segments_eqb (slice 1 (n + 1) (Path.split path)) (Path.split dir).

(** The path of an entry without the wrapper directory and [dir]. *)
Definition strippedPath (dir path : string) : string :=
  String.concat "/" (skipn (length (Path.split dir) + 1) (Path.split path)).

(** The segment holds no separator. *)
Fixpoint no_sep (s : string) : Prop :=
  match s with
  | EmptyString => True
  | String c rest => Path.is_sep c = false /\ no_sep rest
  end.

(** [x] is the first element of [l] that satisfies [P]. *)
Definition first_match {A} (P : A -> Prop) (l : list A) (x : A) : Prop :=
  exists l1 l2, l = l1 ++ x :: l2 /\ P x /\ forall y, In y l1 -> ~ P y.

(** The filesystem operations caused by one file of [unpackTree]: its write
    when the content could be fetched, nothing otherwise. *)
Definition written (E : Env) (release : Release) (cwd : string)
           (file : FileRecord) : list fs_op :=
  trace (fetchAndWrite E release cwd file).

(** No two [>] stand side by side in the text. *)
Fixpoint no_adjacent_gt (s : string) : bool :=
  match s with
  | EmptyString => true
  | String c t =>
      match t with
      | EmptyString => true
      | String c' _ => negb (Ascii.eqb c gt && Ascii.eqb c' gt) && no_adjacent_gt t
      end
  end.

Definition starts_with_gt (s : string) : bool :=
  match s with
  | String c _ => Ascii.eqb c gt
  | EmptyString => false
  end.

(** The text with every backslash taken out. *)
Fixpoint without_backslashes (s : string) : string :=
  match s with
  | EmptyString => EmptyString
  | String c t =>
      if Ascii.eqb c backslash then without_backslashes t
      else String c (without_backslashes t)
  end.

Definition is_rm (op : fs_op) : bool :=
  match op with
  | Rm _ => true
  | _ => false
  end.

(** Lines 172-249 of [unpackRelease]: what follows the recreation of the
    output directory [cwd]. *)
Definition importInto (E : Env) (release : Release) (cwd : string)
           (baseNav : list NavNode) : M (option Imported) :=
  src <- lift (nullish_or (pathExists E (branch release) srcPath)
                          (pathExists E (branch release) builtPath)) ;;
  match src with
  | None => throw (Error ("Could not find source dir for " ++ id release)%string)
  | Some src =>
      if negb (Path.nonempty src)
      then throw (Error ("Could not find source dir for " ++ id release)%string)
      else
        let release := set_src release (Some src) in
        navPath <- lift (nullish_or
                           (pathExists E (branch release) (Path.join [srcPath; "nav.yml"]))
                           (pathExists E (branch release) (Path.join ["docs"; "nav.yml"]))) ;;
        nav <- getNav E navPath release ;;
        files <- extractFiles E release cwd ;;
        let dirs := indexDirs files in
        indexes <- all (map (writeIndex E release baseNav nav cwd) dirs) ;;
        nav <- writeChangelog E release nav cwd "CHANGELOG.md"
                              (Path.join ["using-npm"; "changelog"]) ;;
        ret (Some (mkImported release (nav_children nav)))
  end.

(** The path tar records for an entry under [dir]: the stripped path, less
    its root. *)
Definition tarPath (dir path : string) : string :=
  dropRoot (strippedPath dir path).

(** Tar takes the entry: none of the segments left after the strip is [..],
    and the file does not take the place of [cwd] itself. *)
Definition tarAccepts (cwd dir path : string) : bool :=
  negb (existsb (String.eqb "..")
                (skipn (length (Path.split dir) + 1) (Path.split path)))
  && negb (Path.join [cwd; tarPath dir path] =? Path.join [cwd]).

(** ** A sample world, used to run the embedding *)

Module Sample.

Definition leaf (t u : string) : NavNode := mkNavNode t u None None None.

Definition commandsSection : NavNode :=
  mkNavNode "Commands" "/commands" (Some "cmds") None
            (Some [leaf "npm install" "/commands/npm-install"]).

Definition usingSection : NavNode :=
  mkNavNode "Using npm" "/using-npm" None None
            (Some [leaf "Registry" "/using-npm/registry"]).

Definition navDescription : list NavNode := [commandsSection; usingSection].

Definition archive : list TarEntry :=
  [ mkTarEntry "pkg-1.0.0/package.json" "{}";
    mkTarEntry "pkg-1.0.0/docs/content/commands/npm-install.md" "install";
    mkTarEntry "pkg-1.0.0/docs/lib/content/commands/npm-ci.md" "ci";
    mkTarEntry "pkg-1.0.0/docs/content/using-npm/registry.md" "registry" ].

Definition remoteFiles : list FileRecord :=
  [ mkFile "commands/npm-install.md" "f1"; mkFile "using-npm/registry.md" "f2" ].

Definition world : Env :=
  mkEnv (fun _ => Return "sha-latest")
        (fun _ _ => Return [mkDirEntry "lib" "l1"; mkDirEntry "content" "abc123"])
        (fun _ => Return remoteFiles)
        (fun sha => Return sha)
        (fun _ _ => Return "a>>b foo>bar")
        (fun _ p => if p =? "docs/lib/content" then Return (Some p) else Return None)
        (fun _ => Return (Some navDescription))
        (fun c o => (t_path o ++ ":" ++ c)%string)
        (fun _ _ => (archive, None))
        (fun l => rev l)
        0.

Definition v9 : Release :=
  mkRelease "v9" "9.0.0" "release/v9"
            (Some (mkManifest (Some "r1") (Some "npm@9")))
            (Some "r0") None false false "/cli/v9" "v9" None.

Definition v6 : Release :=
  mkRelease "v6" "6.14.18" "release/v6" None (Some "old-sha") None
            true false "/cli/v6" "v6" (Some "docs/lib/content").

Definition baseNav : list NavNode := [leaf "v6" "/cli/v6"; leaf "v9" "/cli/v9"].

Definition nav9 : Nav :=
  mkNav (Some "docs/nav.yml") (rewriteUrls "/cli/v9" (Some navDescription)).

(** The archive of the extraction scenario. *)
Definition scenarioArchive : list TarEntry :=
  [ mkTarEntry "pkg-1.0.0/docs/content/guide/intro.md" "intro" ].

Definition scenarioWorld : Env :=
  mkEnv (getLatestSha world) (getDirectory world) (getAllFiles world)
        (getFileBySha world) (getFileByRef world) (pathExists world)
        (yaml_parse world) (transform world)
        (fun _ _ => (scenarioArchive, None))
        (settle_order world) 0.

(** The same, when tar has dealt with the entry by the end of the stream. *)
Definition scenarioWorldSettled : Env :=
  mkEnv (getLatestSha world) (getDirectory world) (getAllFiles world)
        (getFileBySha world) (getFileByRef world) (pathExists world)
        (yaml_parse world) (transform world)
        (fun _ _ => (scenarioArchive, None))
        (settle_order world) 1.

(** An archive with entries that pass the filter and that tar refuses. *)
Definition refusedArchive : list TarEntry :=
  [ mkTarEntry "pkg/docs/content/../secret.md" "secret";
    mkTarEntry "pkg/docs/content" "file" ].

Definition refusedWorld : Env :=
  mkEnv (getLatestSha world) (getDirectory world) (getAllFiles world)
        (getFileBySha world) (getFileByRef world) (pathExists world)
        (yaml_parse world) (transform world)
        (fun _ _ => (refusedArchive, None))
        (settle_order world) 2.


(** A repository without any of the probed paths. *)
Definition emptyRepo : Env :=
  mkEnv (getLatestSha world) (getDirectory world) (getAllFiles world)
        (getFileBySha world) (getFileByRef world)
        (fun _ _ => Return None)
        (yaml_parse world) (transform world) (tarball world)
        (settle_order world) (tar_settled world).

(** [v9] as [resolveRelease] hands it on. *)
Definition v9_resolved : Release :=
  set_spec (set_resolved (set_resolved v9 None) (Some "r1")) (Some "npm@9").

(** [v9] when the stored content address is the current one. *)
Definition v9_current : Release := set_resolved v9 (Some "r1").

End Sample.

(** * Properties *)

(** ** Basic facts about the monad *)

Lemma bind_lift_return {A B} (a : A) (f : A -> M B) :
  bind (lift (Return a)) f = f a.
Proof. unfold bind, lift. destruct (f a); reflexivity. Qed.

Lemma bind_lift_throw {A B} (e : exn) (f : A -> M B) :
  bind (lift (@Throw A e)) f = (Throw e, []).
Proof. reflexivity. Qed.

Lemma bind_ret {A B} (a : A) (f : A -> M B) : bind (ret a) f = f a.
Proof. unfold bind, ret. destruct (f a); reflexivity. Qed.

Lemma bind_pure {A B} (a : A) (f : A -> M B) : bind (Return a, []) f = f a.
Proof. apply bind_ret. Qed.

Lemma trace_bind_tell {B} (ops : list fs_op) (k : unit -> M B) :
  trace (bind (tell ops) k) = ops ++ trace (k tt).
Proof. unfold bind, tell, trace. destruct (k tt); reflexivity. Qed.

Lemma result_bind_tell {B} (ops : list fs_op) (k : unit -> M B) :
  result (bind (tell ops) k) = result (k tt).
Proof. unfold bind, tell, result. destruct (k tt); reflexivity. Qed.

Lemma option_eqb_eq (a b : option string) : option_eqb a b = true <-> a = b.
Proof.
  destruct a, b; simpl; split; intro H; try congruence; try reflexivity.
  - apply String.eqb_eq in H. congruence.
  - inversion H. apply String.eqb_refl.
Qed.

(** ** resolveRelease *)

(** The resolution step fills [resolved] (and [spec] for an archive release)
    and touches nothing else. *)
Lemma resolveIds_populates (E : Env) (r r' : Release) :
  resolveIds E r = Return r' ->
  (useBranch r = true /\
   exists sha, getLatestSha E (branch r) = Return sha /\
               r' = set_resolved r (Some sha))
  \/
  (useBranch r = false /\
   exists m, manifest r = Some m /\
             r' = set_spec (set_resolved r (_resolved m)) (_from m)).
Proof.
  unfold resolveIds. destruct (useBranch r).
  - destruct (getLatestSha E (branch r)) as [sha|e] eqn:Hs; intro H; inversion H.
    left. split; [reflexivity|]. exists sha. split; reflexivity.
  - destruct (manifest r) as [m|]; intro H; inversion H.
    right. split; [reflexivity|]. exists m. split; reflexivity.
Qed.

(** C1. [resolveRelease] answers with the skip signal exactly when the release
    is a prerelease the caller did not ask for, or the freshly resolved
    content address equals the stored one and [force] is off. In every other
    case the release comes back with its resolution fields filled in; in
    particular [force] defeats the comparison of the identifiers. (When the
    resolution step itself throws there is no fresh address, and the
    exception is passed on: that is neither a skip nor a release.) *)
Theorem resolveRelease_skip_iff (E : Env) (r : Release) (force opt_prerelease : bool) :
  let release := set_resolved r None in
  let gate := prerelease r = true /\ opt_prerelease = false in
  let unchanged := exists r', resolveIds E release = Return r' /\
                              resolved r' = resolved r /\ force = false in
  (resolveRelease E r force opt_prerelease = Return None <-> gate \/ unchanged)
  /\ (forall r', resolveIds E release = Return r' ->
        ~ (gate \/ unchanged) ->
        resolveRelease E r force opt_prerelease = Return (Some r')
        /\ (useBranch r = true ->
            exists sha, getLatestSha E (branch r) = Return sha /\
                        resolved r' = Some sha /\ spec r' = spec r)
        /\ (useBranch r = false ->
            exists m, manifest r = Some m /\
                      resolved r' = _resolved m /\ spec r' = _from m))
  /\ (force = true -> ~ gate ->
      forall r', resolveIds E release = Return r' ->
                 resolveRelease E r force opt_prerelease = Return (Some r'))
  /\ (forall e, resolveIds E release = Throw e -> ~ gate ->
                resolveRelease E r force opt_prerelease = Throw e).
Proof.
  intros release gate unchanged.
  assert (Hgate : prerelease release && negb opt_prerelease = true <-> gate).
  { unfold gate, release. simpl. rewrite andb_true_iff, negb_true_iff. tauto. }
  unfold resolveRelease. fold release.
  destruct (prerelease release && negb opt_prerelease) eqn:Hg.
  - assert (G : gate) by (apply Hgate; reflexivity).
    split; [|split; [|split]]; intros; tauto.
  - assert (NG : ~ gate) by (intro G; apply Hgate in G; congruence).
    destruct (resolveIds E release) as [r1|e] eqn:Hres.
    + destruct (option_eqb (resolved r1) (resolved r) && negb force) eqn:Hcmp.
      * apply andb_true_iff in Hcmp. destruct Hcmp as [Heq Hf].
        apply option_eqb_eq in Heq. apply negb_true_iff in Hf.
        assert (U : unchanged) by (exists r1; auto).
        split; [|split; [|split]]; intros; try tauto; congruence.
      * assert (NU : ~ unchanged).
        { intros [r' [Hr' [Heq Hf]]]. inversion Hr'; subst r'.
          apply option_eqb_eq in Heq. rewrite Heq, Hf in Hcmp. discriminate. }
        split; [|split; [|split]].
        -- split; [discriminate | tauto].
        -- intros r' Hr' _. inversion Hr'; subst r'.
           split; [reflexivity|].
           apply resolveIds_populates in Hres. unfold release in Hres. simpl in Hres.
           destruct Hres as [[Hb [sha [Hs Hr1]]] | [Hb [m [Hm Hr1]]]]; split; intro Hu;
             try congruence.
           ++ exists sha. subst r1. auto.
           ++ exists m. subst r1. auto.
        -- intros _ _ r' Hr'. inversion Hr'. reflexivity.
        -- intros e He. discriminate.
    + assert (NU : ~ unchanged) by (intros [r' [Hr' _]]; discriminate).
      split; [|split; [|split]].
      * split; [discriminate | tauto].
      * intros r' Hr'. discriminate.
      * intros _ _ r' Hr'. discriminate.
      * intros e' He' _. inversion He'. reflexivity.
Qed.

(** ** unpackRelease: the idempotence gate *)

(** C4. When the resolver signals a skip, [unpackRelease] returns nothing and
    issues no filesystem operation at all. Any filesystem operation of a run
    implies that the resolver returned a release, and such a run starts by
    removing and recreating the output directory. *)
Theorem unpackRelease_skip_no_fs (E : Env) (r : Release) (contentPath : string)
        (baseNav : list NavNode) (force opt_prerelease : bool) :
  let run := unpackRelease E r contentPath baseNav force opt_prerelease in
  (resolveRelease E r force opt_prerelease = Return None ->
   run = (Return None, []))
  /\ (forall op, In op (trace run) ->
        exists release, resolveRelease E r force opt_prerelease = Return (Some release))
  /\ (forall release,
        resolveRelease E r force opt_prerelease = Return (Some release) ->
        let cwd := Path.join [contentPath; id release] in
        exists rest, trace run = Rm cwd :: Mkdir cwd :: rest).
Proof.
  intros run. unfold run, unpackRelease.
  destruct (resolveRelease E r force opt_prerelease) as [[release|]|e] eqn:Hres.
  - rewrite bind_lift_return.
    split; [discriminate|]. split.
    + intros op _. exists release. reflexivity.
    + intros release' Heq. inversion Heq; subst release'. cbv zeta.
      rewrite trace_bind_tell, trace_bind_tell. simpl.
      eexists. reflexivity.
  - rewrite bind_lift_return. unfold ret.
    split; [reflexivity|]. split.
    + intros op Hin. simpl in Hin. contradiction.
    + intros release Heq. discriminate.
  - rewrite bind_lift_throw.
    split; [discriminate|]. split.
    + intros op Hin. simpl in Hin. contradiction.
    + intros release Heq. discriminate.
Qed.

(** ** getNav: the URL rewrite *)

Lemma rewriteNode_children (relurl : string) (n : NavNode) :
  children (rewriteNode relurl n) = rewriteUrls relurl (children n).
Proof. destruct n as [t u s d c]. destruct c; reflexivity. Qed.

Lemma rewriteNode_fields (relurl : string) (n : NavNode) :
  nav_url (rewriteNode relurl n) = (relurl ++ nav_url n)%string
  /\ title (rewriteNode relurl n) = title n
  /\ shortName (rewriteNode relurl n) = shortName n
  /\ description (rewriteNode relurl n) = description n.
Proof. destruct n as [t u s d c]. simpl. auto. Qed.

Lemma child_count_rewriteUrls (relurl : string) (nodes : option (list NavNode)) :
  child_count (rewriteUrls relurl nodes) = child_count nodes.
Proof.
  destruct nodes as [l|]; simpl; [|reflexivity].
  now rewrite length_map.
Qed.

Lemma node_at_rewriteUrls (relurl : string) (p : list nat) :
  forall nodes,
    node_at p (rewriteUrls relurl nodes)
    = option_map (rewriteNode relurl) (node_at p nodes).
Proof.
  induction p as [|i p IH]; intros nodes; [reflexivity|].
  destruct nodes as [l|]; simpl; [|reflexivity].
  rewrite nth_error_map.
  destruct (nth_error l i) as [n|]; simpl; [|reflexivity].
  destruct p as [|j p']; [reflexivity|].
  rewrite rewriteNode_children. apply IH.
Qed.

(** C3. For every navigation tree and release, at every position of the tree
    the rewritten node carries [release.url] followed by the original url and
    the original title, short name and description; a position is occupied
    after the rewrite exactly when it was before; and every child sequence,
    the top one included, keeps its state: absent stays absent, and a present
    one keeps its length (so empty stays empty). *)
Theorem rewriteUrls_spec (release : Release) (tree : option (list NavNode)) :
  let tree' := rewriteUrls (url release) tree in
  child_count tree' = child_count tree
  /\ forall p : list nat,
       match node_at p tree, node_at p tree' with
       | Some before, Some after =>
           nav_url after = (url release ++ nav_url before)%string
           /\ title after = title before
           /\ shortName after = shortName before
           /\ description after = description before
           /\ child_count (children after) = child_count (children before)
       | None, None => True
       | _, _ => False
       end.
Proof.
  intros tree'. split; [apply child_count_rewriteUrls|].
  intros p. unfold tree'. rewrite node_at_rewriteUrls.
  destruct (node_at p tree) as [n|]; simpl; [|exact I].
  destruct (rewriteNode_fields (url release) n) as [Hu [Ht [Hs Hd]]].
  repeat split; try assumption.
  rewrite rewriteNode_children. apply child_count_rewriteUrls.
Qed.


(** ** writeChangelog *)

(** C8. The replacement escapes the [>] of [foo>bar], but it leaves bare the
    second of two adjacent [>] (the first match has consumed the character
    that would have to precede it) and a [>] that opens the text (no
    character precedes it). *)
Theorem escapeGt_leaves_bare_gt :
  escapeGt "foo>bar" = "foo\>bar"
  /\ escapeGt "a>>b" = "a\>>b"
  /\ has_bare_gt (escapeGt "a>>b") = true
  /\ escapeGt ">quoted" = ">quoted"
  /\ has_bare_gt (escapeGt ">quoted") = true.
Proof. repeat split; reflexivity. Qed.

Lemma pushChangelog_last (leaf : NavNode) (nav : Nav)
      (secs : list NavNode) (sec : NavNode) (cs : list NavNode) :
  nav_children nav = Some (secs ++ [sec]) ->
  children sec = Some cs ->
  pushChangelog leaf nav
  = Return (mkNav (nav_path nav)
                  (Some (secs ++ [set_children sec (Some (cs ++ [leaf]))]))).
Proof.
  intros Hn Hc. unfold pushChangelog. rewrite Hn.
  destruct (secs ++ [sec]) as [|x l] eqn:Hl.
  - destruct secs; discriminate.
  - rewrite <- Hl.
    replace (length (secs ++ [sec]) - 1) with (length secs)
      by (rewrite length_app; simpl; lia).
    rewrite nth_error_app2 by lia. rewrite Nat.sub_diag. simpl.
    rewrite Hc, removelast_last. reflexivity.
Qed.

(** C7, as the code has it. When the changelog can be fetched and the
    navigation has a last top-level section with a child sequence,
    [writeChangelog] writes the changelog document and appends one leaf,
    titled "Changelog", whose url is [release.url], a slash and the content
    path, and which carries the fixed description, as the last child of the
    last top-level section. The other sections, the other fields of the last
    section and its earlier children are as before; its child count grows by
    one. *)
Theorem writeChangelog_appends_leaf (E : Env) (release : Release) (nav : Nav)
        (cwd srcPath contentPath text : string)
        (secs : list NavNode) (sec : NavNode) (cs : list NavNode) :
  getFileByRef E (branch release) (Some srcPath) = Return text ->
  nav_children nav = Some (secs ++ [sec]) ->
  children sec = Some cs ->
  let leaf := mkNavNode "Changelog" (url release ++ "/" ++ contentPath) None
                        (Some "Changelog notes for each version") None in
  let sec' := mkNavNode (title sec) (nav_url sec) (shortName sec) (description sec)
                        (Some (cs ++ [leaf])) in
  result (writeChangelog E release nav cwd srcPath contentPath)
  = Return (mkNav (nav_path nav) (Some (secs ++ [sec'])))
  /\ length (cs ++ [leaf]) = S (length cs)
  /\ length (secs ++ [sec']) = length (secs ++ [sec])
  /\ map op_path (trace (writeChangelog E release nav cwd srcPath contentPath))
     = [Path.join [cwd; (contentPath ++ ".md")%string]].
Proof.
  intros Hf Hn Hc leaf sec'.
  unfold writeChangelog. rewrite Hf, bind_lift_return.
  rewrite result_bind_tell, trace_bind_tell.
  rewrite (pushChangelog_last _ nav secs sec cs Hn Hc).
  repeat split.
  - rewrite length_app. simpl. lia.
  - rewrite !length_app. reflexivity.
Qed.

(** ** Path segments *)

Section PathSegments.

Import Path.

Lemma split_not_nil (s : string) : split s <> [].
Proof.
  induction s as [|c s IH]; simpl; [discriminate|].
  destruct (is_sep c); [discriminate|].
  destruct (split s); [contradiction|discriminate].
Qed.

Lemma split_no_sep (s : string) : Forall no_sep (split s).
Proof.
  induction s as [|c s IH]; simpl.
  - repeat constructor.
  - destruct (is_sep c) eqn:Hc.
    + constructor; [exact I | exact IH].
    + destruct (split s) as [|h t].
      * repeat constructor. exact Hc.
      * inversion IH; subst. constructor; [split; assumption | assumption].
Qed.

Lemma split_app_sep (x r : string) :
  no_sep x -> split (x ++ String sep r) = x :: split r.
Proof.
  induction x as [|c x IH]; simpl; intros H.
  - reflexivity.
  - destruct H as [Hc Hx]. rewrite Hc, (IH Hx). reflexivity.
Qed.

Lemma split_single (x : string) : no_sep x -> split x = [x].
Proof.
  induction x as [|c x IH]; simpl; intros H; [reflexivity|].
  destruct H as [Hc Hx]. rewrite Hc, (IH Hx). reflexivity.
Qed.

Lemma split_concat (l : list string) :
  Forall no_sep l -> l <> [] -> split (String.concat "/" l) = l.
Proof.
  induction l as [|x l IH]; intros Hall Hne; [contradiction|].
  inversion Hall as [|? ? Hx Hl]; subst.
  destruct l as [|y t].
  - simpl. apply split_single. exact Hx.
  - change (String.concat "/" (x :: y :: t))
      with (x ++ String sep (String.concat "/" (y :: t)))%string.
    rewrite split_app_sep by exact Hx.
    rewrite IH; [reflexivity | exact Hl | discriminate].
Qed.

Lemma normalizeString_length (a : bool) (segs : list string) :
  forall res, length (normalizeString a segs res) <= length segs + length res.
Proof.
  induction segs as [|seg rest IH]; intros res; simpl.
  - rewrite length_rev. lia.
  - destruct ((seg =? "") || (seg =? ".")).
    + specialize (IH res). lia.
    + destruct (seg =? "..").
      * destruct res as [|top res'].
        -- destruct a; [specialize (IH [".."]) | specialize (IH [])]; simpl in *; lia.
        -- destruct (top =? "..").
           ++ destruct a; [specialize (IH (".." :: top :: res'))
                          | specialize (IH (top :: res'))]; simpl in *; lia.
           ++ specialize (IH res'). simpl. lia.
      * specialize (IH (seg :: res)). simpl in *. lia.
Qed.

Lemma normalizeString_full (segs : list string) :
  forall res,
    length (normalizeString true segs res) = length segs + length res ->
    normalizeString true segs res = rev res ++ segs.
Proof.
  induction segs as [|seg rest IH]; intros res; simpl.
  - intros _. now rewrite app_nil_r.
  - destruct ((seg =? "") || (seg =? ".")) eqn:H1.
    + intros H. pose proof (normalizeString_length true rest res). lia.
    + destruct (seg =? "..") eqn:H2.
      * apply String.eqb_eq in H2. subst seg.
        destruct res as [|top res'].
        -- intros H. rewrite IH by (simpl in *; lia). reflexivity.
        -- destruct (top =? "..").
           ++ intros H. rewrite IH by (simpl in *; lia).
              simpl. rewrite <- !app_assoc. reflexivity.
           ++ intros H. pose proof (normalizeString_length true rest res').
              simpl in *. lia.
      * intros H. rewrite IH by (simpl in *; lia).
        simpl. rewrite <- app_assoc. reflexivity.
Qed.

Lemma plain_tests (seg : string) :
  plain seg -> (seg =? "") = false /\ (seg =? ".") = false /\ (seg =? "..") = false.
Proof.
  intros [H1 [H2 H3]]. repeat split; apply String.eqb_neq; assumption.
Qed.

Lemma normalizeString_plain (a : bool) (segs : list string) :
  Forall plain segs ->
  forall res, normalizeString a segs res = rev res ++ segs.
Proof.
  induction 1 as [|seg rest Hp Hrest IH]; intros res; simpl.
  - now rewrite app_nil_r.
  - destruct (plain_tests seg Hp) as [E1 [E2 E3]].
    rewrite E1, E2, E3. simpl. rewrite IH. simpl.
    rewrite <- app_assoc. reflexivity.
Qed.

Lemma normalizeString_no_sep (a : bool) (segs : list string) :
  Forall no_sep segs ->
  forall res, Forall no_sep res -> Forall no_sep (normalizeString a segs res).
Proof.
  assert (Hdd : no_sep "..") by (simpl; repeat split; reflexivity).
  induction 1 as [|seg rest Hs Hrest IH]; intros res Hres; simpl.
  - apply Forall_rev. exact Hres.
  - destruct ((seg =? "") || (seg =? ".")); [apply IH; exact Hres|].
    destruct (seg =? "..").
    + destruct res as [|top res'].
      * apply IH. destruct a; repeat constructor; try reflexivity.
      * inversion Hres; subst.
        destruct (top =? ".."); apply IH; [destruct a|]; auto.
    + apply IH. constructor; assumption.
Qed.

End PathSegments.

Section JoinSegments.

Import Path.

Lemma nonempty_true (x : string) : nonempty x = true <-> x <> "".
Proof.
  unfold nonempty. rewrite negb_true_iff. apply String.eqb_neq.
Qed.

Lemma append_empty_r (s : string) : (s ++ "")%string = s.
Proof. induction s as [|c s IH]; simpl; [reflexivity | now rewrite IH]. Qed.

Lemma concat_cons_nonempty (x : string) (t : list string) :
  x <> "" -> String.concat "/" (x :: t) <> "".
Proof.
  intros Hx. destruct x as [|c x]; [contradiction|].
  destruct t; simpl; discriminate.
Qed.

Lemma startsWithSep_concat (x : string) (t : list string) :
  x <> "" -> no_sep x -> startsWithSep (String.concat "/" (x :: t)) = false.
Proof.
  intros Hx Hs. destruct x as [|c x]; [contradiction|].
  destruct Hs as [Hc _]. destruct t; simpl; exact Hc.
Qed.

Lemma endsWithSep_app (x y : string) :
  y <> "" -> endsWithSep (x ++ y) = endsWithSep y.
Proof.
  intros Hy. induction x as [|c x IH]; [reflexivity|].
  simpl. destruct (x ++ y)%string eqn:Hxy.
  - destruct x; simpl in Hxy; [contradiction | discriminate].
  - exact IH.
Qed.

Lemma endsWithSep_no_sep (x : string) : no_sep x -> endsWithSep x = false.
Proof.
  induction x as [|c x IH]; intros H; [reflexivity|].
  destruct H as [Hc Hx]. simpl. destruct x; [exact Hc | apply IH; exact Hx].
Qed.

Lemma endsWithSep_concat (l : list string) :
  Forall no_sep l -> Forall (fun x => x <> "") l ->
  endsWithSep (String.concat "/" l) = false.
Proof.
  induction l as [|x l IH]; intros Hs Hn; [reflexivity|].
  inversion Hs; subst. inversion Hn; subst.
  destruct l as [|y t].
  - simpl. apply endsWithSep_no_sep. assumption.
  - change (String.concat "/" (x :: y :: t))
      with (x ++ String sep (String.concat "/" (y :: t)))%string.
    rewrite endsWithSep_app by discriminate.
    assert (Hc : String.concat "/" (y :: t) <> "").
    { apply concat_cons_nonempty. inversion Hn; subst.
      match goal with H : Forall _ (y :: t) |- _ => inversion H; assumption end. }
    change (endsWithSep (String sep (String.concat "/" (y :: t))))
      with (match String.concat "/" (y :: t) with
            | EmptyString => is_sep sep
            | _ => endsWithSep (String.concat "/" (y :: t))
            end).
    destruct (String.concat "/" (y :: t)) eqn:Hcc; [contradiction|].
    apply IH; assumption.
Qed.

Lemma filter_nonempty_Forall (l : list string) :
  Forall (fun x => x <> "") (filter nonempty l).
Proof.
  apply Forall_forall. intros x Hin. apply filter_In in Hin.
  apply nonempty_true. tauto.
Qed.

Lemma filter_no_sep (l : list string) :
  Forall no_sep l -> Forall no_sep (filter nonempty l).
Proof.
  intros H. apply Forall_forall. intros x Hin. apply filter_In in Hin.
  rewrite Forall_forall in H. apply H. tauto.
Qed.

Lemma filter_length_le {A} (f : A -> bool) (l : list A) :
  length (filter f l) <= length l.
Proof.
  induction l as [|x l IH]; simpl; [lia|]. destruct (f x); simpl; lia.
Qed.

Lemma filter_full {A} (f : A -> bool) (l : list A) :
  length (filter f l) = length l -> filter f l = l.
Proof.
  induction l as [|x l IH]; simpl; [reflexivity|].
  destruct (f x); simpl; intros H.
  - f_equal. apply IH. lia.
  - pose proof (filter_length_le f l). lia.
Qed.

(** [join] of segments that hold no separator: the empty ones are dropped,
    the rest is normalised and glued together again. *)
Lemma join_no_sep (l : list string) :
  Forall no_sep l ->
  join l =
  let p := String.concat "/" (normalizeString true (filter nonempty l) []) in
  if p =? "" then "." else p.
Proof.
  intros Hs. unfold join.
  pose proof (filter_nonempty_Forall l) as Hn.
  pose proof (filter_no_sep l Hs) as Hs'.
  destruct (filter nonempty l) as [|x t] eqn:Hf; [reflexivity|].
  inversion Hn; subst. inversion Hs'; subst.
  unfold normalize.
  assert (Hne : String.concat "/" (x :: t) <> "")
    by (apply concat_cons_nonempty; assumption).
  apply String.eqb_neq in Hne. rewrite Hne.
  rewrite startsWithSep_concat by assumption.
  rewrite endsWithSep_concat by assumption.
  rewrite split_concat by (assumption || discriminate).
  cbv zeta. simpl negb.
  destruct (String.concat "/" (normalizeString true (x :: t) []) =? ""); [reflexivity|].
  simpl. apply append_empty_r.
Qed.

Lemma plain_nonempty (l : list string) : Forall plain l -> filter nonempty l = l.
Proof.
  induction 1 as [|x l Hx Hl IH]; simpl; [reflexivity|].
  destruct Hx as [Hx _]. apply nonempty_true in Hx. rewrite Hx, IH. reflexivity.
Qed.

Lemma join_plain (d : list string) :
  Forall plain d -> Forall no_sep d -> d <> [] ->
  join d = String.concat "/" d.
Proof.
  intros Hp Hs Hne. rewrite join_no_sep by exact Hs.
  rewrite plain_nonempty by exact Hp.
  rewrite normalizeString_plain by exact Hp. simpl.
  destruct d as [|x t]; [contradiction|].
  inversion Hp; subst.
  assert (Hc : String.concat "/" (x :: t) <> "").
  { apply concat_cons_nonempty. match goal with H : plain x |- _ => apply H end. }
  apply String.eqb_neq in Hc. rewrite Hc. reflexivity.
Qed.

(** On segments, [join] agrees with a target made of ordinary names only on
    that very list of segments. *)
Lemma join_eq_plain (l d : list string) :
  Forall no_sep l -> Forall plain d -> Forall no_sep d -> d <> [] ->
  length l <= length d ->
  join l = join d -> l = d.
Proof.
  intros Hl Hp Hd Hne Hlen Hj.
  rewrite (join_plain d Hp Hd Hne) in Hj.
  rewrite (join_no_sep l Hl) in Hj. cbv zeta in Hj.
  set (l' := normalizeString true (filter nonempty l) []) in *.
  assert (Hl' : Forall no_sep l').
  { apply normalizeString_no_sep; [apply filter_no_sep; exact Hl | constructor]. }
  assert (Hl'd : l' = d).
  { destruct (String.concat "/" l' =? "") eqn:He.
    - exfalso. assert (Hsp : split "." = split (String.concat "/" d)) by now rewrite Hj.
      rewrite split_concat in Hsp by assumption. simpl in Hsp.
      subst d. inversion Hp as [|? ? Hx _]; subst. destruct Hx as [_ [Hx _]].
      apply Hx. reflexivity.
    - assert (Hn : l' <> []) by (intro Hn; rewrite Hn in He; discriminate).
      rewrite <- (split_concat l' Hl' Hn), Hj. apply split_concat; assumption. }
  pose proof (normalizeString_length true (filter nonempty l) []) as B1.
  pose proof (filter_length_le nonempty l) as B2.
  fold l' in B1. simpl in B1.
  assert (Hfull : filter nonempty l = l) by (apply filter_full; subst d; lia).
  assert (Hnorm : l' = filter nonempty l).
  { unfold l'. rewrite normalizeString_full; [reflexivity|].
    fold l'. simpl. subst d. lia. }
  congruence.
Qed.

End JoinSegments.

(** ** unpackTarball *)

Lemma Forall_slice {A} (P : A -> Prop) (a b : nat) (l : list A) :
  Forall P l -> Forall P (slice a b l).
Proof.
  intros H. unfold slice.
  rewrite <- (firstn_skipn a l) in H. apply Forall_app in H. destruct H as [_ H].
  rewrite <- (firstn_skipn (b - a) (skipn a l)) in H. apply Forall_app in H.
  tauto.
Qed.

Lemma segments_eqb_true (a b : list string) : segments_eqb a b = true <-> a = b.
Proof.
  unfold segments_eqb. destruct (list_eq_dec string_dec a b); split; congruence.
Qed.

(** For a target made of ordinary names, the comparison of the joined paths
    that the filter performs is the comparison of the segments. *)
Lemma tarFilter_underDir (dir path : string) :
  plain_dir dir -> tarFilter dir path = underDir dir path.
Proof.
  intros Hp. unfold tarFilter, underDir. cbv zeta.
  set (prefix := slice 1 (length (Path.split dir) + 1) (Path.split path)).
  destruct (segments_eqb prefix (Path.split dir)) eqn:He.
  - apply segments_eqb_true in He. rewrite He. apply String.eqb_refl.
  - apply String.eqb_neq. intros Hj.
    assert (prefix = Path.split dir).
    { apply join_eq_plain; try assumption.
      - apply Forall_slice, split_no_sep.
      - apply split_no_sep.
      - apply split_not_nil.
      - unfold prefix, slice. rewrite length_firstn. lia. }
    apply segments_eqb_true in H. congruence.
Qed.

Lemma underDir_strip (dir path : string) :
  underDir dir path = true ->
  tarStrip (length (Path.split dir) + 1) path = Some (strippedPath dir path).
Proof.
  unfold underDir, tarStrip, strippedPath. cbv zeta. intros H.
  apply segments_eqb_true in H.
  assert (Hlen : length (slice 1 (length (Path.split dir) + 1) (Path.split path))
                 = length (Path.split dir)) by now rewrite H.
  unfold slice in Hlen. rewrite length_firstn, length_skipn in Hlen.
  pose proof (split_not_nil dir) as Hne.
  destruct (Path.split dir) as [|d0 dt] eqn:Hd; [contradiction|].
  simpl length in *.
  destruct (Nat.ltb_spec (length (Path.split path)) (S (length dt) + 1)); [lia|].
  reflexivity.
Qed.

Lemma existsb_split_concat (parts : list string) :
  Forall no_sep parts ->
  existsb (String.eqb "..") (Path.split (String.concat "/" parts))
  = existsb (String.eqb "..") parts.
Proof.
  intros Hs. destruct parts as [|x t]; [reflexivity|].
  rewrite split_concat; [reflexivity | exact Hs | discriminate].
Qed.

Lemma Forall_skipn {A} (P : A -> Prop) (n : nat) (l : list A) :
  Forall P l -> Forall P (skipn n l).
Proof.
  intros H. rewrite <- (firstn_skipn n l) in H. apply Forall_app in H. tauto.
Qed.

Lemma tarCheckPath_stripped (cwd dir path : string) :
  tarCheckPath cwd (strippedPath dir path)
  = if tarAccepts cwd dir path then Some (tarPath dir path) else None.
Proof.
  unfold tarCheckPath, tarAccepts, tarPath, strippedPath.
  rewrite existsb_split_concat by (apply Forall_skipn, split_no_sep).
  destruct (existsb _ _); [reflexivity|]. simpl.
  destruct (Path.join _ =? Path.join [cwd]); reflexivity.
Qed.

Lemma extract_plain (E : Env) (release : Release) (cwd dir : string)
      (entries : list TarEntry) :
  plain_dir dir ->
  extract E release cwd dir entries
  = map (fun e =>
           let path := tarPath dir (entry_path e) in
           (path, tarWrite E release cwd path (entry_data e)))
        (filter (fun e => underDir dir (entry_path e)
                          && tarAccepts cwd dir (entry_path e)) entries).
Proof.
  intros Hp. induction entries as [|e rest IH]; [reflexivity|].
  simpl. rewrite (tarFilter_underDir dir (entry_path e) Hp).
  destruct (underDir dir (entry_path e)) eqn:Hu; [|exact IH].
  rewrite (underDir_strip _ _ Hu), tarCheckPath_stripped.
  destruct (tarAccepts cwd dir (entry_path e)); simpl; [|exact IH].
  rewrite IH. reflexivity.
Qed.

Lemma flat_map_snd_map {A} (f : A -> string) (g : A -> list fs_op) (l : list A) :
  flat_map snd (map (fun e => (f e, g e)) l) = flat_map g l.
Proof. induction l as [|x l IH]; simpl; [reflexivity | now rewrite IH]. Qed.

(** C2, as the code has it. Let the target directory be made of ordinary
    names, as [docs/content] is. An archive entry passes the filter exactly
    when, one leading segment being skipped, its next segments up to the depth
    of the target equal the segments of the target. Tar extracts such an entry
    unless one of the segments left after the strip is [..] or the file would
    take the place of the output directory itself. Each extracted entry is
    written once, in archive order, at its path less the first (depth + 1)
    segments, its directory being made first when that is not the output
    directory, with the data the transform makes of the entry for that
    stripped path and the release; every other entry is dropped without a
    trace and without an exception. The promise settles at the end of the
    source stream: the writes issued by then are those of the first entries
    tar has dealt with, their paths are what is returned, and the remaining
    writes are still to come. *)
Theorem unpackTarball_extracts_under_dir (E : Env) (release : Release)
        (cwd dir : string) (entries : list TarEntry) (err : option exn) :
  plain_dir dir ->
  tarball E (spec release) (resolved release) = (entries, err) ->
  let n := length (Path.split dir) in
  let left e := skipn (n + 1) (Path.split (entry_path e)) in
  let stripped e := dropRoot (String.concat "/" (left e)) in
  let target e := Path.join [cwd; stripped e] in
  let write e :=
    WriteFile (target e)
              (transform E (entry_data e) (mkTransformOpts (stripped e) release None)) in
  let ops e :=
    (if Path.dirname (target e) =? Path.join [cwd] then []
     else [Mkdir (Path.dirname (target e))]) ++ [write e] in
  let kept :=
    filter (fun e => underDir dir (entry_path e)
                     && tarAccepts cwd dir (entry_path e)) entries in
  (forall path,
      tarFilter dir path = true
      <-> firstn n (skipn 1 (Path.split path)) = Path.split dir)
  /\ (forall e, In e kept <->
                In e entries
                /\ firstn n (skipn 1 (Path.split (entry_path e))) = Path.split dir
                /\ ~ In ".." (left e)
                /\ target e <> Path.join [cwd])
  /\ trace (unpackTarball E release cwd dir) ++ tarPending E release cwd dir
     = flat_map ops kept
  /\ trace (unpackTarball E release cwd dir)
     = flat_map ops (firstn (tar_settled E) kept)
  /\ tarPending E release cwd dir = flat_map ops (skipn (tar_settled E) kept)
  /\ (err = None ->
      result (unpackTarball E release cwd dir)
      = Return (map stripped (firstn (tar_settled E) kept)))
  /\ (forall x, err = Some x ->
                result (unpackTarball E release cwd dir) = Throw x).
Proof.
  intros Hp Ht n left stripped target write ops kept.
  assert (Hfilter : forall path,
             underDir dir path = true
             <-> firstn n (skipn 1 (Path.split path)) = Path.split dir).
  { intros path. unfold underDir. cbv zeta. rewrite segments_eqb_true.
    unfold slice. fold n. replace (n + 1 - 1) with n by lia. tauto. }
  assert (Haccept : forall e,
             tarAccepts cwd dir (entry_path e) = true
             <-> ~ In ".." (left e) /\ target e <> Path.join [cwd]).
  { intros e. unfold tarAccepts. rewrite andb_true_iff, !negb_true_iff.
    fold n. change (skipn (n + 1) (Path.split (entry_path e))) with (left e).
    change (tarPath dir (entry_path e)) with (stripped e).
    change (Path.join [cwd; stripped e]) with (target e).
    rewrite String.eqb_neq.
    assert (Hdd : existsb (String.eqb "..") (left e) = false <-> ~ In ".." (left e)).
    { split.
      - intros Hex Hin.
        assert (existsb (String.eqb "..") (left e) = true); [|congruence].
        apply existsb_exists. exists "..". split; [exact Hin | reflexivity].
      - intros Hnin. destruct (existsb _ (left e)) eqn:Hex; [|reflexivity].
        apply existsb_exists in Hex. destruct Hex as [x [Hx Hxe]].
        apply String.eqb_eq in Hxe. subst x. contradiction. }
    tauto. }
  assert (Hext : extract E release cwd dir entries
                 = map (fun e => (stripped e, ops e)) kept).
  { rewrite (extract_plain E release cwd dir entries Hp). reflexivity. }
  assert (Hsettled : flat_map snd (firstn (tar_settled E)
                                          (extract E release cwd dir entries))
                     = flat_map ops (firstn (tar_settled E) kept)).
  { rewrite Hext, firstn_map. apply flat_map_snd_map. }
  assert (Hpending : tarPending E release cwd dir
                     = flat_map ops (skipn (tar_settled E) kept)).
  { unfold tarPending. rewrite Ht. simpl fst.
    rewrite Hext, skipn_map. apply flat_map_snd_map. }
  assert (Htrace : trace (unpackTarball E release cwd dir)
                   = flat_map ops (firstn (tar_settled E) kept)).
  { unfold unpackTarball. rewrite Ht. cbv zeta. rewrite trace_bind_tell, Hsettled.
    destruct err; simpl; now rewrite app_nil_r. }
  split.
  { intros path. rewrite (tarFilter_underDir dir path Hp). apply Hfilter. }
  split.
  { intros e. unfold kept. rewrite filter_In, andb_true_iff, Hfilter, Haccept. tauto. }
  split.
  { rewrite Htrace, Hpending, <- flat_map_app, firstn_skipn. reflexivity. }
  split; [exact Htrace|]. split; [exact Hpending|].
  unfold unpackTarball. rewrite Ht. cbv zeta. rewrite result_bind_tell.
  split.
  - intros ->. simpl. rewrite Hext, firstn_map, map_map. reflexivity.
  - intros x ->. reflexivity.
Qed.

(** ** Index generation *)

Lemma set_add_In (acc : list string) (x y : string) :
  In y (set_add acc x) <-> In y acc \/ y = x.
Proof.
  unfold set_add. destruct (existsb (String.eqb x) acc) eqn:He.
  - apply existsb_exists in He. destruct He as [z [Hz Hxz]].
    apply String.eqb_eq in Hxz. subst z.
    split; [tauto|]. intros [H|H]; [exact H | now subst].
  - rewrite in_app_iff. simpl. intuition congruence.
Qed.

Lemma set_add_NoDup (acc : list string) (x : string) :
  NoDup acc -> NoDup (set_add acc x).
Proof.
  intros Hn. unfold set_add. destruct (existsb (String.eqb x) acc) eqn:He; [exact Hn|].
  apply NoDup_app; [exact Hn | repeat constructor; intros [] |].
  intros a Ha [Hx|[]]. subst a.
  assert (existsb (String.eqb x) acc = true); [|congruence].
  apply existsb_exists. exists x. split; [exact Ha | apply String.eqb_refl].
Qed.

Lemma fold_set_add (xs : list string) :
  forall acc, NoDup acc ->
    NoDup (fold_left set_add xs acc)
    /\ forall y, In y (fold_left set_add xs acc) <-> In y acc \/ In y xs.
Proof.
  induction xs as [|x xs IH]; intros acc Hn; simpl.
  - split; [exact Hn | intros; tauto].
  - destruct (IH (set_add acc x) (set_add_NoDup acc x Hn)) as [H1 H2].
    split; [exact H1|]. intros y. rewrite H2, set_add_In.
    split; intros H; intuition auto.
Qed.

(** [[...new Set(xs)]] has the elements of [xs], each once. *)
Lemma uniq_spec (xs : list string) :
  NoDup (uniq xs) /\ forall y, In y (uniq xs) <-> In y xs.
Proof.
  destruct (fold_set_add xs [] (NoDup_nil _)) as [H1 H2].
  split; [exact H1|]. intros y. unfold uniq. rewrite H2. simpl. tauto.
Qed.

(** [dirname] never answers with the empty string. *)
Lemma dirname_nonempty (p : string) : Path.dirname p <> "".
Proof.
  unfold Path.dirname. destruct p as [|c0 rest]; [discriminate|].
  cbv zeta.
  destruct (Path.dirname_scan (rev (list_ascii_of_string rest)) true) as [r'|].
  - destruct r'; [destruct (Path.is_sep c0)|]; discriminate.
  - destruct (Path.is_sep c0); discriminate.
Qed.

Lemma all_success {A B} (f : A -> M B) (g : A -> B) (h : A -> fs_op) (l : list A) :
  (forall x, In x l -> f x = (Return (g x), [h x])) ->
  all (map f l) = (Return (map g l), map h l).
Proof.
  induction l as [|x l IH]; intros H; [reflexivity|].
  simpl. rewrite IH by (intros; apply H; now right).
  rewrite (H x) by now left. reflexivity.
Qed.

Lemma find_first {A} (f : A -> bool) (l : list A) (x : A) :
  find f l = Some x <-> first_match (fun y => f y = true) l x.
Proof.
  unfold first_match. induction l as [|a l IH]; simpl.
  - split; [discriminate|]. intros [l1 [l2 [H _]]]. destruct l1; discriminate.
  - destruct (f a) eqn:Ha.
    + split.
      * intros H. inversion H; subst. exists [], l. simpl. repeat split; auto.
      * intros [l1 [l2 [Hl [Hx Hy]]]]. destruct l1 as [|b l1]; simpl in Hl.
        -- congruence.
        -- inversion Hl; subst. exfalso. apply (Hy b); [now left | exact Ha].
    + rewrite IH. split.
      * intros [l1 [l2 [Hl [Hx Hy]]]]. exists (a :: l1), l2. subst l.
        repeat split; auto. intros y [Hya|Hin]; [subst; congruence | now apply Hy].
      * intros [l1 [l2 [Hl [Hx Hy]]]]. destruct l1 as [|b l1]; simpl in Hl.
        -- inversion Hl; subst. congruence.
        -- inversion Hl; subst. exists l1, l2. repeat split; auto.
           intros y Hin. apply Hy. now right.
Qed.

Lemma writeIndex_match (E : Env) (release : Release) (baseNav : list NavNode)
      (nav : Nav) (cwd dir : string) (n : NavNode) :
  findNavSection release baseNav nav dir = Return (Some n) ->
  writeIndex E release baseNav nav cwd dir
  = (Return (Path.join [dir; "index.mdx"]),
     [WriteFile (Path.join [cwd; Path.join [dir; "index.mdx"]])
                (transform E indexBody
                   (mkTransformOpts (Path.join [dir; "index.mdx"]) release
                      (Some (mkFrontmatter (nav_path nav) (title n) (shortName n)))))]).
Proof.
  intros H. unfold writeIndex. cbv zeta. rewrite H, bind_lift_return. reflexivity.
Qed.

(** C5. The directories for which an index document is generated are the
    root [""] and the [dirname] of every extracted file, each exactly once;
    and when every one of them has a navigation match, one index document is
    written per directory, at [index.mdx] inside it. *)
Theorem indexDirs_cover (E : Env) (release : Release) (baseNav : list NavNode)
        (nav : Nav) (cwd : string) (files : list string) :
  let dirs := indexDirs files in
  let run := all (map (writeIndex E release baseNav nav cwd) dirs) in
  NoDup dirs
  /\ (forall d, In d dirs <-> d = "" \/ exists f, In f files /\ Path.dirname f = d)
  /\ ((forall d, In d dirs ->
         exists n, findNavSection release baseNav nav d = Return (Some n)) ->
      result run = Return (map (fun d => Path.join [d; "index.mdx"]) dirs)
      /\ map op_path (trace run)
         = map (fun d => Path.join [cwd; Path.join [d; "index.mdx"]]) dirs
      /\ length (trace run) = length dirs).
Proof.
  intros dirs run.
  destruct (uniq_spec (map Path.dirname files)) as [Hnd Hin].
  assert (Hmem : forall d, In d dirs <->
                           d = "" \/ exists f, In f files /\ Path.dirname f = d).
  { intros d. unfold dirs, indexDirs. simpl. rewrite Hin, in_map_iff.
    split; intros [H|H]; auto.
    - right. destruct H as [f [Hf Hi]]. exists f. tauto.
    - right. destruct H as [f [Hf Hi]]. exists f. tauto. }
  split; [|split; [exact Hmem|]].
  - unfold dirs, indexDirs. constructor; [|exact Hnd].
    rewrite Hin, in_map_iff. intros [f [Hf _]]. now apply (dirname_nonempty f).
  - intros Hall.
    set (section_of := fun d =>
           match findNavSection release baseNav nav d with
           | Return (Some n) => n
           | _ => mkNavNode "" "" None None None
           end).
    assert (Hrun : run =
      (Return (map (fun d => Path.join [d; "index.mdx"]) dirs),
       map (fun d =>
              WriteFile (Path.join [cwd; Path.join [d; "index.mdx"]])
                (transform E indexBody
                   (mkTransformOpts (Path.join [d; "index.mdx"]) release
                      (Some (mkFrontmatter (nav_path nav) (title (section_of d))
                                           (shortName (section_of d)))))))
           dirs)).
    { unfold run. apply all_success. intros d Hd.
      destruct (Hall d Hd) as [n Hn]. rewrite (writeIndex_match _ _ _ _ _ _ n Hn).
      unfold section_of. rewrite Hn. reflexivity. }
    rewrite Hrun. simpl. rewrite map_map, length_map. simpl. auto.
Qed.

(** C6. For the root directory the navigation node is the first entry of the
    base navigation whose url has [release.urlPrefix] as its last segment; for
    any other directory it is the first child of the release's navigation
    whose url has the directory name as its last segment. When no entry
    matches, the lookup yields no node and reading [title] from it throws a
    [TypeError] before anything is written; when one matches, its [title] and
    [shortName] go into the frontmatter of the index document. *)
Theorem findNavSection_first_match (E : Env) (release : Release)
        (baseNav : list NavNode) (nav : Nav) (cwd dir : string) :
  (forall n,
      findNavSection release baseNav nav "" = Return (Some n)
      <-> first_match (fun c => Path.basename (nav_url c) = urlPrefix release) baseNav n)
  /\ (dir <> "" ->
      forall cs, nav_children nav = Some cs ->
      forall n,
        findNavSection release baseNav nav dir = Return (Some n)
        <-> first_match (fun c => Path.basename (nav_url c) = dir) cs n)
  /\ (findNavSection release baseNav nav "" = Return None
      <-> forall c, In c baseNav -> Path.basename (nav_url c) <> urlPrefix release)
  /\ (dir <> "" ->
      forall cs, nav_children nav = Some cs ->
        (findNavSection release baseNav nav dir = Return None
         <-> forall c, In c cs -> Path.basename (nav_url c) <> dir))
  /\ (findNavSection release baseNav nav dir = Return None ->
      writeIndex E release baseNav nav cwd dir
      = (Throw (TypeError "Cannot read properties of undefined (reading 'title')"), []))
  /\ (forall n,
      findNavSection release baseNav nav dir = Return (Some n) ->
      writeIndex E release baseNav nav cwd dir
      = (Return (Path.join [dir; "index.mdx"]),
         [WriteFile (Path.join [cwd; Path.join [dir; "index.mdx"]])
                    (transform E indexBody
                       (mkTransformOpts (Path.join [dir; "index.mdx"]) release
                          (Some (mkFrontmatter (nav_path nav) (title n) (shortName n)))))])).
Proof.
  assert (Hfm : forall (s : string) (l : list NavNode) (n : NavNode),
             first_match (fun c => (Path.basename (nav_url c) =? s) = true) l n
             <-> first_match (fun c => Path.basename (nav_url c) = s) l n).
  { intros s l n. unfold first_match.
    split; intros [l1 [l2 [Hl [Hx Hy]]]]; exists l1, l2; (split; [exact Hl|]); split.
    - now apply String.eqb_eq.
    - intros y Hin Hp. apply (Hy y Hin). now apply String.eqb_eq.
    - now apply String.eqb_eq.
    - intros y Hin Hp. apply (Hy y Hin). now apply String.eqb_eq. }
  assert (Hnone : forall (s : string) (l : list NavNode),
             find (fun c => Path.basename (nav_url c) =? s) l = None
             <-> forall c, In c l -> Path.basename (nav_url c) <> s).
  { intros s l. split.
    - intros H c Hin. apply String.eqb_neq.
      apply (find_none _ _ H c Hin).
    - intros H. destruct (find _ l) as [c|] eqn:Hf; [|reflexivity].
      apply find_some in Hf. destruct Hf as [Hin Hc].
      apply String.eqb_eq in Hc. exfalso. exact (H c Hin Hc). }
  assert (Hdir : dir <> "" -> Path.nonempty dir = true) by apply nonempty_true.
  split; [|split; [|split; [|split; [|split]]]].
  - intros n. unfold findNavSection. simpl.
    rewrite <- Hfm, <- find_first. split; congruence.
  - intros Hd cs Hcs n. unfold findNavSection. rewrite (Hdir Hd), Hcs.
    rewrite <- Hfm, <- find_first. split; congruence.
  - unfold findNavSection. simpl. rewrite <- Hnone. split; congruence.
  - intros Hd cs Hcs. unfold findNavSection. rewrite (Hdir Hd), Hcs.
    rewrite <- Hnone. split; congruence.
  - intros H. unfold writeIndex. cbv zeta. rewrite H, bind_lift_return. reflexivity.
  - intros n. apply writeIndex_match.
Qed.

(** ** unpackTree: directories first *)

Lemma trace_bind {A B} (m : M A) (f : A -> M B) :
  trace (bind m f)
  = trace m ++ match result m with
               | Return a => trace (f a)
               | Throw _ => []
               end.
Proof.
  destruct m as [[a|e] t]; unfold bind, trace, result; simpl.
  - destruct (f a); reflexivity.
  - now rewrite app_nil_r.
Qed.

Lemma trace_bind_ret {A B} (m : M A) (b : B) :
  trace (bind m (fun _ => ret b)) = trace m.
Proof.
  rewrite trace_bind. destruct (result m); simpl; now rewrite app_nil_r.
Qed.

Lemma trace_all {A} (ms : list (M A)) : trace (all ms) = flat_map trace ms.
Proof.
  induction ms as [|m ms IH]; [reflexivity|].
  simpl. unfold trace in *. destruct (all ms) as [r' t']. simpl in IH. subst t'.
  destruct m as [[a|e] t]; reflexivity.
Qed.

Lemma flat_map_map {A B C} (f : A -> B) (g : B -> list C) (l : list A) :
  flat_map g (map f l) = flat_map (fun x => g (f x)) l.
Proof.
  induction l as [|x l IH]; simpl; [reflexivity | now rewrite IH].
Qed.

Lemma written_cases (E : Env) (release : Release) (cwd : string) (f : FileRecord) :
  written E release cwd f = []
  \/ exists data, written E release cwd f
                  = [WriteFile (Path.join [cwd; file_path f]) data].
Proof.
  unfold written, fetchAndWrite.
  destruct (getFileBySha E (file_sha f)) as [buf|e].
  - right. rewrite bind_lift_return. eexists. reflexivity.
  - left. reflexivity.
Qed.

Lemma writes_are_writes (E : Env) (release : Release) (cwd : string)
      (l : list FileRecord) :
  Forall (fun op => is_write op = true) (flat_map (written E release cwd) l).
Proof.
  induction l as [|f l IH]; simpl; [constructor|].
  apply Forall_app. split; [|exact IH].
  destruct (written_cases E release cwd f) as [H|[data H]]; rewrite H;
    repeat constructor.
Qed.

(** The run of [unpackTree] once the file list is known. *)
Lemma unpackTree_trace (E : Env) (release : Release) (cwd dir : string)
      (paths : list DirEntry) (entry : DirEntry) (files : list FileRecord) :
  getDirectory E (branch release) (Path.join (removelast (Path.split dir)))
  = Return paths ->
  find (fun p => entry_name p =? last (Path.split dir) "") paths = Some entry ->
  getAllFiles E (entry_sha entry) = Return files ->
  trace (unpackTree E release cwd dir)
  = map Mkdir (treeDirs cwd files)
    ++ flat_map (written E release cwd) (settle_order E files).
Proof.
  intros Hd Hf Ha. unfold unpackTree. cbv zeta.
  rewrite Hd, bind_lift_return, Hf, bind_ret, Ha, bind_lift_return.
  rewrite trace_bind. f_equal.
  - rewrite trace_all, flat_map_map. unfold tell, trace. simpl.
    induction (treeDirs cwd files); simpl; [reflexivity | now f_equal].
  - rewrite (all_success (fun d => tell [Mkdir d]) (fun _ => tt) Mkdir)
      by (intros; reflexivity).
    unfold result. simpl. rewrite trace_bind_ret, trace_all, flat_map_map.
    reflexivity.
Qed.

(** Without a file list nothing is touched. *)
Lemma unpackTree_early_failure (E : Env) (release : Release) (cwd dir : string) :
  (forall paths entry files,
      getDirectory E (branch release) (Path.join (removelast (Path.split dir)))
      = Return paths ->
      find (fun p => entry_name p =? last (Path.split dir) "") paths = Some entry ->
      getAllFiles E (entry_sha entry) <> Return files) ->
  trace (unpackTree E release cwd dir) = []
  /\ exists e, result (unpackTree E release cwd dir) = Throw e.
Proof.
  intros H. unfold unpackTree. cbv zeta.
  destruct (getDirectory E (branch release) _) as [paths|e] eqn:Hd.
  - rewrite bind_lift_return.
    destruct (find _ paths) as [entry|] eqn:Hf.
    + rewrite bind_ret.
      destruct (getAllFiles E (entry_sha entry)) as [files|e] eqn:Ha.
      * exfalso. exact (H paths entry files eq_refl Hf Ha).
      * rewrite bind_lift_throw. split; [reflexivity | eexists; reflexivity].
    + split; [reflexivity | eexists; reflexivity].
  - rewrite bind_lift_throw. split; [reflexivity | eexists; reflexivity].
Qed.

(** C9. Once the remote file list is known, [unpackTree] first issues one
    [mkdir] for each distinct output directory implied by the file paths and
    only then the file writes: every write comes after the [mkdir] of every
    one of those directories, and no [mkdir] comes after a write. Among
    themselves the writes follow the order in which the fetches settle,
    whatever it is; when that order is a permutation of the file list, so are
    the writes. *)
Theorem unpackTree_dirs_before_writes (E : Env) (release : Release)
        (cwd dir : string)
        (paths : list DirEntry) (entry : DirEntry) (files : list FileRecord) :
  getDirectory E (branch release) (Path.join (removelast (Path.split dir)))
  = Return paths ->
  find (fun p => entry_name p =? last (Path.split dir) "") paths = Some entry ->
  getAllFiles E (entry_sha entry) = Return files ->
  let t := trace (unpackTree E release cwd dir) in
  let dirs := treeDirs cwd files in
  let writes := flat_map (written E release cwd) (settle_order E files) in
  t = map Mkdir dirs ++ writes
  /\ NoDup dirs
  /\ (forall d, In d dirs <->
                exists f, In f files /\
                          d = Path.join [cwd; Path.dirname (file_path f)])
  /\ Forall (fun op => is_write op = true) writes
  /\ (forall j p data,
        nth_error t j = Some (WriteFile p data) ->
        forall d, In d dirs -> exists i, i < j /\ nth_error t i = Some (Mkdir d))
  /\ (forall i j d p data,
        nth_error t i = Some (Mkdir d) ->
        nth_error t j = Some (WriteFile p data) -> i < j)
  /\ (Permutation (settle_order E files) files ->
      Permutation writes (flat_map (written E release cwd) files)).
Proof.
  intros Hd Hf Ha t dirs writes.
  assert (Ht : t = map Mkdir dirs ++ writes)
    by (apply (unpackTree_trace E release cwd dir paths entry files); assumption).
  assert (Hw : Forall (fun op => is_write op = true) writes)
    by apply writes_are_writes.
  destruct (uniq_spec (map (fun f => Path.join [cwd; Path.dirname (file_path f)]) files))
    as [Hnd Hin].
  assert (Hleft : forall i op, i < length dirs ->
                               nth_error t i = Some op -> is_write op = false).
  { intros i op Hi Hn. rewrite Ht, nth_error_app1 in Hn by now rewrite length_map.
    rewrite nth_error_map in Hn. destruct (nth_error dirs i); inversion Hn. reflexivity. }
  assert (Hright : forall j op, length dirs <= j ->
                                nth_error t j = Some op -> is_write op = true).
  { intros j op Hj Hn. rewrite Ht, nth_error_app2 in Hn by now rewrite length_map.
    rewrite Forall_forall in Hw. apply Hw. eapply nth_error_In. exact Hn. }
  assert (Hpos : forall j p data, nth_error t j = Some (WriteFile p data) ->
                                  length dirs <= j).
  { intros j p data Hn. destruct (Nat.le_gt_cases (length dirs) j) as [H|H]; [exact H|].
    specialize (Hleft j _ H Hn). discriminate. }
  split; [exact Ht|]. split; [exact Hnd|]. split.
  { intros d. unfold dirs, treeDirs. rewrite Hin, in_map_iff.
    split; intros [f [H1 H2]]; exists f; auto. }
  split; [exact Hw|]. split; [|split].
  - intros j p data Hn d Hdin.
    apply In_nth_error in Hdin. destruct Hdin as [i Hi].
    assert (i < length dirs) by (apply nth_error_Some; congruence).
    exists i. split; [specialize (Hpos j p data Hn); lia|].
    rewrite Ht, nth_error_app1 by now rewrite length_map.
    rewrite nth_error_map, Hi. reflexivity.
  - intros i j d p data Hi Hj.
    specialize (Hpos j p data Hj).
    destruct (Nat.le_gt_cases (length dirs) i) as [H|H]; [|lia].
    specialize (Hright i _ H Hi). discriminate.
  - intros Hperm. unfold writes. apply Permutation_flat_map. exact Hperm.
Qed.

(** ** unpackRelease: which directory is extracted *)

Lemma extract_paths_release (E : Env) (r1 r2 : Release) (cwd dir : string)
      (entries : list TarEntry) :
  map fst (extract E r1 cwd dir entries) = map fst (extract E r2 cwd dir entries)
  /\ map (fun x => map op_path (snd x)) (extract E r1 cwd dir entries)
     = map (fun x => map op_path (snd x)) (extract E r2 cwd dir entries).
Proof.
  induction entries as [|e rest [IH1 IH2]]; [split; reflexivity|].
  simpl. destruct (tarFilter dir (entry_path e)); [|split; assumption].
  destruct (tarStrip _ (entry_path e)) as [stripped|]; [|split; assumption].
  destruct (tarCheckPath cwd stripped) as [path|]; [|split; assumption].
  simpl. rewrite IH1, IH2. split; [reflexivity|]. f_equal.
  unfold tarWrite. cbv zeta. rewrite !map_app. reflexivity.
Qed.

Lemma map_op_path_flat_map (l : list (string * list fs_op)) :
  map op_path (flat_map snd l) = concat (map (fun x => map op_path (snd x)) l).
Proof.
  induction l as [|x l IH]; [reflexivity|]. simpl. now rewrite map_app, IH.
Qed.

Lemma unpackTarball_src_irrelevant (E : Env) (release : Release)
      (cwd dir : string) (s : option string) :
  result (unpackTarball E (set_src release s) cwd dir)
  = result (unpackTarball E release cwd dir)
  /\ map op_path (trace (unpackTarball E (set_src release s) cwd dir))
     = map op_path (trace (unpackTarball E release cwd dir))
  /\ map op_path (tarPending E (set_src release s) cwd dir)
     = map op_path (tarPending E release cwd dir).
Proof.
  unfold unpackTarball, tarPending.
  change (spec (set_src release s)) with (spec release).
  change (resolved (set_src release s)) with (resolved release).
  destruct (tarball E (spec release) (resolved release)) as [entries err].
  destruct (extract_paths_release E (set_src release s) release cwd dir entries)
    as [H1 H2].
  cbv zeta. simpl fst.
  rewrite !result_bind_tell, !trace_bind_tell, !map_app, !map_op_path_flat_map.
  rewrite <- !firstn_map, <- !skipn_map, H1, H2.
  destruct err; repeat split; reflexivity.
Qed.

Lemma builtPath_plain : plain_dir builtPath.
Proof.
  unfold plain_dir. simpl.
  repeat constructor; unfold plain; repeat split; discriminate.
Qed.

(** All that tar does for an archive, by the time the promise settles and
    afterwards, for a target made of ordinary names. *)
Lemma unpackTarball_all_ops (E : Env) (release : Release) (cwd dir : string) :
  plain_dir dir ->
  trace (unpackTarball E release cwd dir) ++ tarPending E release cwd dir
  = flat_map (fun e => tarWrite E release cwd (tarPath dir (entry_path e))
                                (entry_data e))
             (filter (fun e => underDir dir (entry_path e)
                               && tarAccepts cwd dir (entry_path e))
                     (fst (tarball E (spec release) (resolved release)))).
Proof.
  intros Hp. unfold unpackTarball, tarPending.
  destruct (tarball E (spec release) (resolved release)) as [entries err].
  cbv zeta. simpl fst. rewrite trace_bind_tell.
  assert (Herr : trace (match err with
                        | Some e => throw e
                        | None => ret (map fst (firstn (tar_settled E)
                                                       (extract E release cwd dir entries)))
                        end) = []) by (destruct err; reflexivity).
  rewrite Herr, app_nil_r, <- flat_map_app, firstn_skipn.
  rewrite (extract_plain E release cwd dir entries Hp).
  apply (flat_map_snd_map (fun e => tarPath dir (entry_path e))).
Qed.

(** Whatever tar writes comes from an entry that has passed the filter. *)
Lemma extract_sound (E : Env) (release : Release) (cwd dir : string)
      (entries : list TarEntry) (p : string) (data : string) :
  In (WriteFile p data) (flat_map snd (extract E release cwd dir entries)) ->
  exists e path,
    In e entries /\ tarFilter dir (entry_path e) = true
    /\ p = Path.join [cwd; path]
    /\ data = transform E (entry_data e) (mkTransformOpts path release None).
Proof.
  induction entries as [|e rest IH]; simpl; [contradiction|].
  assert (Hrest : In (WriteFile p data) (flat_map snd (extract E release cwd dir rest)) ->
                  exists e0 path,
                    (e = e0 \/ In e0 rest) /\ tarFilter dir (entry_path e0) = true
                    /\ p = Path.join [cwd; path]
                    /\ data = transform E (entry_data e0)
                                        (mkTransformOpts path release None)).
  { intros H. destruct (IH H) as [e0 [path [Hin Hr]]]. exists e0, path. tauto. }
  destruct (tarFilter dir (entry_path e)) eqn:Hf; [|exact Hrest].
  destruct (tarStrip _ (entry_path e)) as [stripped|]; [|exact Hrest].
  destruct (tarCheckPath cwd stripped) as [path|]; [|exact Hrest].
  simpl. rewrite in_app_iff. intros [Hw|Hw]; [|exact (Hrest Hw)].
  unfold tarWrite in Hw. cbv zeta in Hw. apply in_app_iff in Hw.
  destruct Hw as [Hw|[Hw|[]]].
  - destruct (_ =? _); [contradiction|]. destruct Hw as [Hw|[]]. discriminate.
  - inversion Hw. exists e, path. auto.
Qed.

(** The run of the orchestrator up to and including the extraction. *)
Lemma unpackRelease_trace_extract (E : Env) (r : Release) (contentPath : string)
      (baseNav : list NavNode) (force opt_prerelease : bool)
      (release : Release) (s : string) (navPath : option string) (nav : Nav) :
  resolveRelease E r force opt_prerelease = Return (Some release) ->
  nullish_or (pathExists E (branch release) srcPath)
             (pathExists E (branch release) builtPath) = Return (Some s) ->
  Path.nonempty s = true ->
  nullish_or (pathExists E (branch release) (Path.join [srcPath; "nav.yml"]))
             (pathExists E (branch release) (Path.join ["docs"; "nav.yml"]))
  = Return navPath ->
  getNav E navPath (set_src release (Some s)) = (Return nav, []) ->
  let cwd := Path.join [contentPath; id release] in
  exists rest,
    trace (unpackRelease E r contentPath baseNav force opt_prerelease)
    = Rm cwd :: Mkdir cwd
         :: trace (extractFiles E (set_src release (Some s)) cwd) ++ rest.
Proof.
  intros Hres Hsrc Hne Hnav Hget cwd.
  unfold unpackRelease. rewrite Hres, bind_lift_return.
  rewrite !trace_bind_tell. cbv beta.
  rewrite Hsrc, bind_lift_return, Hne. simpl negb. cbv iota zeta.
  change (branch (set_src release (Some s))) with (branch release).
  rewrite Hnav, bind_lift_return, Hget, bind_pure.
  rewrite trace_bind. fold cwd. eexists. reflexivity.
Qed.

(** C10. In a run of the orchestrator that reaches the extraction, the
    operations the extraction has issued when it settles follow the recreation
    of the output directory. For a release that is not branch based the
    extraction is the archive extraction with the target [docs/content]:
    whatever the probe stored in [release.src], the same list is returned and
    the same paths are written, by the time the extraction settles and
    afterwards, as for the release without any [src]; and every file written
    comes from an entry that has passed the filter for [docs/content]; the
    operations are those of the entries under [docs/content] that tar
    accepts, one after the other. For a branch based release the tree of [release.src] is fetched: the parent of
    [release.src] is listed, its entry named like the last segment of
    [release.src] gives the file list, and the run throws when there is no
    such entry. The probed value is what the returned release records as
    [src]. *)
Theorem unpackRelease_archive_dir_fixed (E : Env) (r : Release)
        (contentPath : string) (baseNav : list NavNode)
        (force opt_prerelease : bool)
        (release : Release) (s : string) (navPath : option string) (nav : Nav) :
  resolveRelease E r force opt_prerelease = Return (Some release) ->
  nullish_or (pathExists E (branch release) srcPath)
             (pathExists E (branch release) builtPath) = Return (Some s) ->
  Path.nonempty s = true ->
  nullish_or (pathExists E (branch release) (Path.join [srcPath; "nav.yml"]))
             (pathExists E (branch release) (Path.join ["docs"; "nav.yml"]))
  = Return navPath ->
  getNav E navPath (set_src release (Some s)) = (Return nav, []) ->
  let cwd := Path.join [contentPath; id release] in
  let release' := set_src release (Some s) in
  let run := unpackRelease E r contentPath baseNav force opt_prerelease in
  (exists rest,
      trace run = Rm cwd :: Mkdir cwd :: trace (extractFiles E release' cwd) ++ rest)
  /\ (useBranch release = false ->
      (forall s' : option string,
          result (extractFiles E (set_src release s') cwd)
          = result (unpackTarball E release cwd "docs/content")
          /\ map op_path (trace (extractFiles E (set_src release s') cwd))
             = map op_path (trace (unpackTarball E release cwd "docs/content"))
          /\ map op_path (extractPending E (set_src release s') cwd)
             = map op_path (tarPending E release cwd "docs/content"))
      /\ (forall p data,
             In (WriteFile p data)
                (trace (extractFiles E release' cwd) ++ extractPending E release' cwd) ->
             exists e path,
               In e (fst (tarball E (spec release) (resolved release)))
               /\ tarFilter "docs/content" (entry_path e) = true
               /\ p = Path.join [cwd; path])
      /\ trace (extractFiles E release' cwd) ++ extractPending E release' cwd
         = flat_map (fun e => tarWrite E release' cwd
                                       (tarPath "docs/content" (entry_path e))
                                       (entry_data e))
                    (filter (fun e => underDir "docs/content" (entry_path e)
                                      && tarAccepts cwd "docs/content" (entry_path e))
                            (fst (tarball E (spec release) (resolved release)))))
  /\ (useBranch release = true ->
      extractPending E release' cwd = []
      /\ (forall paths entry files,
             getDirectory E (branch release) (Path.join (removelast (Path.split s)))
             = Return paths ->
             find (fun p => entry_name p =? last (Path.split s) "") paths = Some entry ->
             getAllFiles E (entry_sha entry) = Return files ->
             trace (extractFiles E release' cwd)
             = map Mkdir (treeDirs cwd files)
               ++ flat_map (written E release' cwd) (settle_order E files))
      /\ (forall paths,
             getDirectory E (branch release) (Path.join (removelast (Path.split s)))
             = Return paths ->
             find (fun p => entry_name p =? last (Path.split s) "") paths = None ->
             extractFiles E release' cwd
             = (Throw (TypeError "Cannot read properties of undefined (reading 'sha')"),
                [])))
  /\ (forall imported, result run = Return (Some imported) ->
                       src (imp_release imported) = Some s).
Proof.
  intros Hres Hsrc Hne Hnav Hget cwd release' run.
  split; [|split; [|split]].
  - apply (unpackRelease_trace_extract E r contentPath baseNav force opt_prerelease
             release s navPath nav); assumption.
  - intros Hu. split; [|split].
    + intros s'. unfold extractFiles, extractPending. simpl. rewrite Hu.
      apply (unpackTarball_src_irrelevant E release cwd builtPath s').
    + intros p data Hin.
      unfold extractFiles, extractPending in Hin. simpl in Hin. rewrite Hu in Hin.
      unfold unpackTarball, tarPending in Hin.
      change (spec release') with (spec release) in Hin.
      change (resolved release') with (resolved release) in Hin.
      destruct (tarball E (spec release) (resolved release)) as [entries err].
      cbv zeta in Hin. simpl fst in *.
      rewrite trace_bind_tell in Hin.
      assert (Hall : In (WriteFile p data)
                        (flat_map snd (extract E release' cwd builtPath entries))).
      { rewrite <- (firstn_skipn (tar_settled E)
                       (extract E release' cwd builtPath entries)), flat_map_app.
        rewrite in_app_iff in Hin. rewrite in_app_iff.
        destruct Hin as [Hin|Hin]; [|now right].
        rewrite in_app_iff in Hin. destruct Hin as [Hin|Hin]; [now left|].
        destruct err; simpl in Hin; contradiction. }
      destruct (extract_sound E release' cwd builtPath entries p data Hall)
        as [e [path [He [Hf [Hp _]]]]].
      exists e, path. auto.
    + unfold extractFiles, extractPending. simpl. rewrite Hu.
      apply (unpackTarball_all_ops E release' cwd builtPath builtPath_plain).
  - intros Hu. split; [|split].
    + unfold extractPending. simpl. rewrite Hu. reflexivity.
    + intros paths entry files Hd Hf Ha.
      unfold extractFiles. simpl. rewrite Hu.
      apply (unpackTree_trace E release' cwd s paths entry files); assumption.
    + intros paths Hd Hf.
      unfold extractFiles. simpl. rewrite Hu.
      unfold unpackTree. cbv zeta.
      change (branch release') with (branch release).
      rewrite Hd, bind_lift_return, Hf. reflexivity.
  - intros imported. unfold run, unpackRelease.
    rewrite Hres, bind_lift_return.
    rewrite !result_bind_tell. cbv beta.
    rewrite Hsrc, bind_lift_return, Hne. simpl negb. cbv iota zeta.
    change (branch (set_src release (Some s))) with (branch release).
    rewrite Hnav, bind_lift_return, Hget, bind_pure.
    fold release' cwd.
    destruct (extractFiles E release' cwd) as [[files|e] t1]; [|discriminate].
    unfold bind at 1.
    destruct (all _) as [[indexes|e] t2].
    + simpl.
      destruct (writeChangelog E release' nav cwd "CHANGELOG.md" _) as [[nav'|e] t3];
        simpl; intros H; inversion H. reflexivity.
    + simpl. discriminate.
Qed.

(** ** The theorems at work on the sample world *)

Lemma resolveRelease_skip_iff_witness :
  resolveRelease Sample.world Sample.v9_current false false = Return None
  /\ resolveRelease Sample.world Sample.v9_current true false
     = Return (Some Sample.v9_resolved).
Proof.
  split.
  - apply (proj1 (resolveRelease_skip_iff Sample.world Sample.v9_current false false)).
    right. exists Sample.v9_resolved. repeat split; reflexivity.
  - apply (proj1 (proj2 (proj2
             (resolveRelease_skip_iff Sample.world Sample.v9_current true false)))).
    + reflexivity.
    + intros [H _]. discriminate H.
    + reflexivity.
Defined.

Lemma unpackRelease_skip_no_fs_witness :
  unpackRelease Sample.world Sample.v9_current "content/cli" Sample.baseNav false false
  = (Return None, []).
Proof.
  apply (proj1 (unpackRelease_skip_no_fs Sample.world Sample.v9_current
                  "content/cli" Sample.baseNav false false)).
  reflexivity.
Defined.

Lemma plain_docs_content : plain_dir "docs/content".
Proof.
  unfold plain_dir. simpl.
  repeat constructor; unfold plain; repeat split; discriminate.
Defined.

Lemma unpackTarball_extracts_under_dir_witness :
  trace (unpackTarball Sample.scenarioWorld Sample.v9 "out" "docs/content")
  ++ tarPending Sample.scenarioWorld Sample.v9 "out" "docs/content"
  = [Mkdir "out/guide"; WriteFile "out/guide/intro.md" "guide/intro.md:intro"]
  /\ result (unpackTarball Sample.scenarioWorld Sample.v9 "out" "docs/content")
     = Return []
  /\ result (unpackTarball Sample.scenarioWorldSettled Sample.v9 "out" "docs/content")
     = Return ["guide/intro.md"].
Proof.
  destruct (unpackTarball_extracts_under_dir
              Sample.scenarioWorld Sample.v9 "out" "docs/content"
              Sample.scenarioArchive None plain_docs_content eq_refl)
    as [_ [_ [Ht [_ [_ [Hr _]]]]]].
  destruct (unpackTarball_extracts_under_dir
              Sample.scenarioWorldSettled Sample.v9 "out" "docs/content"
              Sample.scenarioArchive None plain_docs_content eq_refl)
    as [_ [_ [_ [_ [_ [Hr' _]]]]]].
  split; [|split].
  - rewrite Ht. reflexivity.
  - rewrite (Hr eq_refl). reflexivity.
  - rewrite (Hr' eq_refl). reflexivity.
Defined.

(** Two entries whose segments after the wrapper directory are those of
    [docs/content], and which are not extracted: the first has a [..] among
    the segments left, the second would take the place of the output
    directory. Nothing is written for them, at any time. *)
Lemma unpackTarball_refused_counterexample :
  Forall (fun e => firstn 2 (skipn 1 (Path.split (entry_path e)))
                   = Path.split "docs/content")
         Sample.refusedArchive
  /\ trace (unpackTarball Sample.refusedWorld Sample.v9 "out" "docs/content") = []
  /\ tarPending Sample.refusedWorld Sample.v9 "out" "docs/content" = []
  /\ result (unpackTarball Sample.refusedWorld Sample.v9 "out" "docs/content")
     = Return [].
Proof.
  split; [repeat constructor|]. repeat split; reflexivity.
Qed.

Lemma indexDirs_cover_witness :
  result (all (map (writeIndex Sample.world Sample.v9 Sample.baseNav Sample.nav9
                               "content/cli/v9")
                   (indexDirs ["commands/npm-install.md"; "using-npm/registry.md"])))
  = Return ["index.mdx"; "commands/index.mdx"; "using-npm/index.mdx"].
Proof.
  destruct (indexDirs_cover Sample.world Sample.v9 Sample.baseNav Sample.nav9
              "content/cli/v9" ["commands/npm-install.md"; "using-npm/registry.md"])
    as [_ [_ H]].
  destruct H as [Hr _].
  - intros d Hd. simpl in Hd.
    destruct Hd as [<-|[<-|[<-|[]]]]; eexists; reflexivity.
  - rewrite Hr. reflexivity.
Defined.

Lemma findNavSection_first_match_witness :
  writeIndex Sample.world Sample.v9 Sample.baseNav Sample.nav9 "content/cli/v9" "guide"
  = (Throw (TypeError "Cannot read properties of undefined (reading 'title')"), []).
Proof.
  apply (proj1 (proj2 (proj2 (proj2 (proj2
           (findNavSection_first_match Sample.world Sample.v9 Sample.baseNav
              Sample.nav9 "content/cli/v9" "guide")))))).
  reflexivity.
Defined.

Lemma writeChangelog_appends_leaf_witness :
  result (writeChangelog Sample.world Sample.v9 Sample.nav9 "content/cli/v9"
                         "CHANGELOG.md" "using-npm/changelog")
  = Return
      (mkNav (Some "docs/nav.yml")
         (Some [rewriteNode "/cli/v9" Sample.commandsSection;
                mkNavNode "Using npm" "/cli/v9/using-npm" None None
                  (Some [Sample.leaf "Registry" "/cli/v9/using-npm/registry";
                         mkNavNode "Changelog" "/cli/v9/using-npm/changelog" None
                                   (Some "Changelog notes for each version") None])])).
Proof.
  apply (proj1 (writeChangelog_appends_leaf
                  Sample.world Sample.v9 Sample.nav9 "content/cli/v9"
                  "CHANGELOG.md" "using-npm/changelog" "a>>b foo>bar"
                  [rewriteNode "/cli/v9" Sample.commandsSection]
                  (rewriteNode "/cli/v9" Sample.usingSection)
                  [Sample.leaf "Registry" "/cli/v9/using-npm/registry"]
                  eq_refl eq_refl eq_refl)).
Defined.

(** The url of the appended leaf has a slash between [release.url] and the
    content path: it is not their plain concatenation. *)
Lemma writeChangelog_url_counterexample :
  exists nav' leaf,
    result (writeChangelog Sample.world Sample.v9 Sample.nav9 "content/cli/v9"
                           "CHANGELOG.md" "using-npm/changelog") = Return nav'
    /\ lastSectionLastChild nav' = Some leaf
    /\ title leaf = "Changelog"
    /\ nav_url leaf = "/cli/v9/using-npm/changelog"
    /\ nav_url leaf <> (url Sample.v9 ++ "using-npm/changelog")%string.
Proof.
  eexists. eexists.
  split; [reflexivity|]. split; [reflexivity|]. split; [reflexivity|].
  split; [reflexivity|]. simpl. discriminate.
Qed.

Lemma unpackTree_dirs_before_writes_witness :
  trace (unpackTree Sample.world Sample.v6 "content/cli/v6" "docs/lib/content")
  = [Mkdir "content/cli/v6/commands"; Mkdir "content/cli/v6/using-npm";
     WriteFile "content/cli/v6/using-npm/registry.md" "using-npm/registry.md:f2";
     WriteFile "content/cli/v6/commands/npm-install.md" "commands/npm-install.md:f1"].
Proof.
  destruct (unpackTree_dirs_before_writes
              Sample.world Sample.v6 "content/cli/v6" "docs/lib/content"
              [mkDirEntry "lib" "l1"; mkDirEntry "content" "abc123"]
              (mkDirEntry "content" "abc123") Sample.remoteFiles
              eq_refl eq_refl eq_refl) as [Ht _].
  rewrite Ht. reflexivity.
Defined.

Lemma unpackRelease_archive_dir_fixed_witness :
  src (set_src Sample.v9_resolved (Some "docs/lib/content")) = Some "docs/lib/content"
  /\ map op_path
         (extractPending Sample.world
            (set_src Sample.v9_resolved (Some "docs/lib/content"))
            "content/cli/v9")
     = ["content/cli/v9/commands";
        "content/cli/v9/commands/npm-install.md";
        "content/cli/v9/using-npm";
        "content/cli/v9/using-npm/registry.md"].
Proof.
  destruct (unpackRelease_archive_dir_fixed
              Sample.world Sample.v9 "content/cli" Sample.baseNav false false
              Sample.v9_resolved "docs/lib/content" None
              (mkNav None (rewriteUrls "/cli/v9" (Some Sample.navDescription)))
              eq_refl eq_refl eq_refl eq_refl eq_refl) as [_ [H _]].
  destruct (H eq_refl) as [He _].
  destruct (He (Some "docs/lib/content")) as [_ [_ Hp]].
  split; [reflexivity|].
  change (Path.join ["content/cli"; id Sample.v9_resolved]) with "content/cli/v9" in Hp.
  rewrite Hp. reflexivity.
Defined.

(** ** Remarks *)

(** With a target that is not made of ordinary names the filter compares
    normalised paths, not segments. *)
Example tarFilter_normalises :
  tarFilter "docs/content/" "pkg/docs/content/./intro.md" = true
  /\ underDir "docs/content/" "pkg/docs/content/./intro.md" = false.
Proof. split; reflexivity. Qed.

(** A file at the top of the extracted tree has the directory ["."], which
    stands beside the root [""] in the list and names the same index file. *)
Example indexDirs_top_level_file :
  indexDirs ["intro.md"] = [""; "."]
  /\ Path.join [""; "index.mdx"] = Path.join ["."; "index.mdx"].
Proof. split; reflexivity. Qed.

(** * Further properties of the pipeline *)

(** ** The escaping of the changelog *)

Lemma string_ind2 (P : string -> Prop) :
  P "" ->
  (forall c, P (String c "")) ->
  (forall c c' rest, P rest -> P (String c' rest) -> P (String c (String c' rest))) ->
  forall s, P s.
Proof.
  intros H0 H1 H2.
  assert (H : forall s, P s /\ forall c, P (String c s)).
  { induction s as [|c' rest [IH1 IH2]].
    - split; [exact H0 | exact H1].
    - split; [apply IH2|]. intros c. apply H2; [exact IH1 | apply IH2]. }
  intros s. apply H.
Qed.

(** X1. A text in which every [>] already follows a backslash is left as it is. *)
Theorem escapeGt_fixes_escaped_text (s : string) :
  has_bare_gt s = false -> escapeGt s = s.
Proof.
  assert (H : forall t prev, has_bare_gt_after prev t = false -> escapeGt t = t).
  { induction t as [|c t IH]; intros prev Hb; [reflexivity|].
    simpl in Hb. apply orb_false_iff in Hb. destruct Hb as [_ Hb].
    simpl. destruct t as [|c' rest]; [reflexivity|].
    assert (Ht := Hb). simpl in Ht. apply orb_false_iff in Ht. destruct Ht as [Ht _].
    rewrite andb_comm, Ht. f_equal. apply (IH c). exact Hb. }
  destruct s as [|c t]; [reflexivity|]. simpl.
  intros Hb. apply orb_false_iff in Hb. destruct Hb as [_ Hb].
  destruct t as [|c' rest]; [reflexivity|].
  assert (Ht := Hb). simpl in Ht. apply orb_false_iff in Ht. destruct Ht as [Ht _].
  rewrite andb_comm, Ht. f_equal. apply (H _ c). exact Hb.
Qed.

(** X2. The rewrite only inserts backslashes: apart from backslashes the text
    comes out as it went in. *)
Theorem escapeGt_only_adds_backslashes (s : string) :
  without_backslashes (escapeGt s) = without_backslashes s.
Proof.
  induction s as [| c | c c' rest IH1 IH2] using string_ind2; try reflexivity.
  change (escapeGt (String c (String c' rest)))
    with (if negb (Ascii.eqb c backslash) && Ascii.eqb c' gt
          then String c (String backslash (String gt (escapeGt rest)))
          else String c (escapeGt (String c' rest))).
  destruct (negb (Ascii.eqb c backslash) && Ascii.eqb c' gt) eqn:Hm.
  - apply andb_true_iff in Hm. destruct Hm as [Hc Hc'].
    apply negb_true_iff in Hc. apply Ascii.eqb_eq in Hc'. subst c'.
    simpl. rewrite Hc, IH1. reflexivity.
  - change (without_backslashes (String c (escapeGt (String c' rest))))
      with (if Ascii.eqb c backslash then without_backslashes (escapeGt (String c' rest))
            else String c (without_backslashes (escapeGt (String c' rest)))).
    rewrite IH2. reflexivity.
Qed.

Lemma has_bare_gt_after_escapeGt (s : string) :
  forall prev,
    no_adjacent_gt s = true ->
    (starts_with_gt s = true -> prev = backslash) ->
    has_bare_gt_after prev (escapeGt s) = false.
Proof.
  induction s as [| c | c c' rest IH1 IH2] using string_ind2; intros prev Hn Hs.
  - reflexivity.
  - simpl in *. destruct (Ascii.eqb c gt); [|reflexivity].
    rewrite (Hs eq_refl). reflexivity.
  - change (escapeGt (String c (String c' rest)))
      with (if negb (Ascii.eqb c backslash) && Ascii.eqb c' gt
            then String c (String backslash (String gt (escapeGt rest)))
            else String c (escapeGt (String c' rest))).
    change (no_adjacent_gt (String c (String c' rest)))
      with (negb (Ascii.eqb c gt && Ascii.eqb c' gt)
            && no_adjacent_gt (String c' rest)) in Hn.
    apply andb_true_iff in Hn. destruct Hn as [Hadj Hn].
    apply negb_true_iff in Hadj.
    assert (Hfirst : Ascii.eqb c gt && negb (Ascii.eqb prev backslash) = false).
    { simpl in Hs. destruct (Ascii.eqb c gt); [|reflexivity].
      rewrite (Hs eq_refl). reflexivity. }
    destruct (negb (Ascii.eqb c backslash) && Ascii.eqb c' gt) eqn:Hm.
    + apply andb_true_iff in Hm. destruct Hm as [Hc Hc'].
      rewrite Hc' in Hadj. rewrite andb_true_r in Hadj.
      apply Ascii.eqb_eq in Hc'. subst c'.
      simpl. rewrite Hfirst. simpl.
      apply IH1.
      * destruct rest as [|c2 r2]; [reflexivity|].
        change (no_adjacent_gt (String gt (String c2 r2)))
          with (negb (Ascii.eqb gt gt && Ascii.eqb c2 gt)
                && no_adjacent_gt (String c2 r2)) in Hn.
        apply andb_true_iff in Hn. tauto.
      * intros Hr. exfalso. destruct rest as [|c2 r2]; [discriminate|].
        change (no_adjacent_gt (String gt (String c2 r2)))
          with (negb (Ascii.eqb gt gt && Ascii.eqb c2 gt)
                && no_adjacent_gt (String c2 r2)) in Hn.
        simpl in Hr. rewrite Hr in Hn. discriminate.
    + change (has_bare_gt_after prev (String c (escapeGt (String c' rest))))
        with ((Ascii.eqb c gt && negb (Ascii.eqb prev backslash))
              || has_bare_gt_after c (escapeGt (String c' rest))).
      rewrite Hfirst. simpl orb.
      apply IH2; [exact Hn|].
      intros Hc'. simpl in Hc'. rewrite Hc' in Hm. rewrite andb_true_r in Hm.
      apply negb_false_iff in Hm. apply Ascii.eqb_eq in Hm. exact Hm.
Qed.

Lemma escapeGt_head (c : ascii) (t : string) :
  exists t', escapeGt (String c t) = String c t'
             /\ forall prev,
                 has_bare_gt_after prev (escapeGt (String c t))
                 = (Ascii.eqb c gt && negb (Ascii.eqb prev backslash))
                   || has_bare_gt_after c t'.
Proof.
  simpl. destruct t as [|c' rest].
  - eexists. split; reflexivity.
  - destruct (negb (Ascii.eqb c backslash) && Ascii.eqb c' gt);
      eexists; split; reflexivity.
Qed.

(** X3. When the text does not open with [>] and no two [>] stand side by side,
    no [>] is left bare: each one follows a backslash in the result. *)
Theorem escapeGt_escapes_separated_gt (s : string) :
  starts_with_gt s = false ->
  no_adjacent_gt s = true ->
  has_bare_gt (escapeGt s) = false.
Proof.
  intros Hs Hn. destruct s as [|c t]; [reflexivity|].
  pose proof (has_bare_gt_after_escapeGt (String c t) gt Hn) as H.
  destruct (escapeGt_head c t) as [t' [He Hb]].
  rewrite (Hb gt) in H. rewrite He. simpl in Hs.
  assert (Hfree : has_bare_gt_after c t' = false).
  { rewrite Hs in H. apply H. simpl. rewrite Hs. discriminate. }
  simpl. rewrite Hs, Hfree. reflexivity.
Qed.

Lemma escapeGt_escapes_separated_gt_witness :
  has_bare_gt (escapeGt "foo>bar => baz") = false.
Proof.
  apply escapeGt_escapes_separated_gt; reflexivity.
Defined.

Lemma escapeGt_fixes_escaped_text_witness :
  escapeGt "a\>b and c" = "a\>b and c".
Proof.
  apply escapeGt_fixes_escaped_text. reflexivity.
Defined.

(** ** The navigation rewrite as an operation on trees *)

Lemma string_append_assoc (a b c : string) :
  ((a ++ b) ++ c)%string = (a ++ (b ++ c))%string.
Proof. induction a as [|x a IH]; simpl; [reflexivity | now rewrite IH]. Qed.

Lemma string_length_append (a b : string) :
  String.length (a ++ b) = String.length a + String.length b.
Proof. induction a as [|x a IH]; simpl; [reflexivity | now rewrite IH]. Qed.

Lemma rewriteNode_empty : forall n, rewriteNode "" n = n.
Proof.
  fix IH 1. intros [t u s d c]. simpl. f_equal.
  destruct c as [l|]; [|reflexivity]. f_equal.
  induction l as [|x l IHl]; simpl; [reflexivity|].
  rewrite IH, IHl. reflexivity.
Qed.

Lemma rewriteNode_compose (a b : string) :
  forall n, rewriteNode a (rewriteNode b n) = rewriteNode (a ++ b) n.
Proof.
  fix IH 1. intros [t u s d c]. simpl. f_equal.
  - symmetry. apply string_append_assoc.
  - destruct c as [l|]; [|reflexivity]. f_equal.
    induction l as [|x l IHl]; simpl; [reflexivity|].
    rewrite IH, IHl. reflexivity.
Qed.

(** X4. Rewriting with an empty release url changes nothing; rewriting a
    rewritten tree is rewriting once with the two prefixes put together, so a
    second pass with a non-empty prefix changes every node again. *)
Theorem rewriteUrls_compose (a b : string) (tree : option (list NavNode)) :
  rewriteUrls "" tree = tree
  /\ rewriteUrls a (rewriteUrls b tree) = rewriteUrls (a ++ b) tree
  /\ (a <> "" ->
      forall p n, node_at p (rewriteUrls a tree) = Some n ->
                  node_at p (rewriteUrls a (rewriteUrls a tree)) <> Some n).
Proof.
  split; [|split].
  - destruct tree as [l|]; [|reflexivity]. simpl. f_equal.
    induction l as [|x l IH]; simpl; [reflexivity|].
    rewrite rewriteNode_empty, IH. reflexivity.
  - destruct tree as [l|]; [|reflexivity]. simpl. f_equal.
    rewrite map_map. apply map_ext. intros n. apply rewriteNode_compose.
  - intros Ha p n Hn Hn'.
    rewrite node_at_rewriteUrls, Hn in Hn'. simpl in Hn'.
    inversion Hn' as [Heq].
    assert (Hu : nav_url (rewriteNode a n) = nav_url n) by now rewrite Heq.
    destruct (rewriteNode_fields a n) as [Hf _]. rewrite Hf in Hu.
    assert (Hl : String.length (a ++ nav_url n) = String.length (nav_url n))
      by now rewrite Hu.
    rewrite string_length_append in Hl.
    destruct a; [contradiction | simpl in Hl; lia].
Qed.

Lemma rewriteUrls_compose_witness :
  node_at [0] (rewriteUrls "/cli/v9" (rewriteUrls "/cli/v9" (Some Sample.navDescription)))
  <> Some (rewriteNode "/cli/v9" Sample.commandsSection).
Proof.
  apply (proj2 (proj2 (rewriteUrls_compose "/cli/v9" "/cli/v9"
                         (Some Sample.navDescription)))).
  - discriminate.
  - reflexivity.
Defined.

(** ** More on resolveRelease *)

(** X5. A release that comes back from [resolveRelease] is the one that went in,
    but for [resolved], and for [spec] when it is not branch based. *)
Theorem resolveRelease_preserves_fields (E : Env) (r r' : Release)
        (force opt_prerelease : bool) :
  resolveRelease E r force opt_prerelease = Return (Some r') ->
  id r' = id r /\ version r' = version r /\ branch r' = branch r
  /\ manifest r' = manifest r /\ useBranch r' = useBranch r
  /\ prerelease r' = prerelease r /\ url r' = url r
  /\ urlPrefix r' = urlPrefix r /\ src r' = src r
  /\ (useBranch r = true -> spec r' = spec r)
  /\ (force = false -> resolved r' <> resolved r).
Proof.
  unfold resolveRelease.
  destruct (prerelease (set_resolved r None) && negb opt_prerelease); [discriminate|].
  destruct (resolveIds E (set_resolved r None)) as [r1|e] eqn:Hres; [|discriminate].
  destruct (option_eqb (resolved r1) (resolved r) && negb force) eqn:Hcmp; [discriminate|].
  intros H. inversion H; subst r'.
  apply resolveIds_populates in Hres. simpl in Hres.
  assert (Hne : force = false -> resolved r1 <> resolved r).
  { intros Hf Heq. apply option_eqb_eq in Heq. rewrite Heq, Hf in Hcmp. discriminate. }
  destruct Hres as [[Hb [sha [_ Hr1]]] | [Hb [m [_ Hr1]]]]; subst r1; simpl in *;
    repeat split; auto; congruence.
Qed.

Lemma resolveRelease_preserves_fields_witness :
  url Sample.v9_resolved = url Sample.v9
  /\ resolved Sample.v9_resolved <> resolved Sample.v9.
Proof.
  destruct (resolveRelease_preserves_fields Sample.world Sample.v9 Sample.v9_resolved
              false false eq_refl)
    as [_ [_ [_ [_ [_ [_ [Hu [_ [_ [_ Hr]]]]]]]]]].
  split; [exact Hu | exact (Hr eq_refl)].
Defined.

(** X6. A release that is not branch based and has no manifest cannot be
    resolved: unless the prerelease gate skips it, reading the manifest throws
    a [TypeError], and the orchestrator passes it on before it has touched the
    output directory. *)
Theorem resolveRelease_missing_manifest (E : Env) (r : Release)
        (contentPath : string) (baseNav : list NavNode)
        (force opt_prerelease : bool) :
  useBranch r = false ->
  manifest r = None ->
  prerelease r = false \/ opt_prerelease = true ->
  resolveRelease E r force opt_prerelease
  = Throw (TypeError "Cannot read properties of undefined (reading '_resolved')")
  /\ unpackRelease E r contentPath baseNav force opt_prerelease
     = (Throw (TypeError "Cannot read properties of undefined (reading '_resolved')"), []).
Proof.
  intros Hu Hm Hg.
  assert (Hres : resolveRelease E r force opt_prerelease
                 = Throw (TypeError "Cannot read properties of undefined (reading '_resolved')")).
  { unfold resolveRelease, resolveIds. simpl. rewrite Hu, Hm.
    destruct Hg as [-> | ->]; [reflexivity|]. rewrite andb_false_r. reflexivity. }
  split; [exact Hres|].
  unfold unpackRelease. rewrite Hres. reflexivity.
Qed.

Lemma resolveRelease_missing_manifest_witness :
  unpackRelease Sample.world
                (mkRelease "v8" "8.0.0" "release/v8" None None None false false
                           "/cli/v8" "v8" None)
                "content/cli" Sample.baseNav true false
  = (Throw (TypeError "Cannot read properties of undefined (reading '_resolved')"), []).
Proof.
  apply (resolveRelease_missing_manifest Sample.world); [reflexivity | reflexivity |].
  left. reflexivity.
Defined.

(** ** The orchestrator after the gate *)

Lemma bind_tell_eq {B} (ops : list fs_op) (k : unit -> M B) :
  bind (tell ops) k = (result (k tt), ops ++ trace (k tt)).
Proof. unfold bind, tell, result, trace. destruct (k tt); reflexivity. Qed.

Lemma unpackRelease_resolved (E : Env) (r : Release) (contentPath : string)
      (baseNav : list NavNode) (force opt_prerelease : bool) (release : Release) :
  resolveRelease E r force opt_prerelease = Return (Some release) ->
  let cwd := Path.join [contentPath; id release] in
  unpackRelease E r contentPath baseNav force opt_prerelease
  = (result (importInto E release cwd baseNav),
     Rm cwd :: Mkdir cwd :: trace (importInto E release cwd baseNav)).
Proof.
  intros Hres cwd. unfold unpackRelease. rewrite Hres, bind_lift_return.
  rewrite bind_tell_eq, result_bind_tell, trace_bind_tell. reflexivity.
Qed.

Lemma Forall_trace_bind {A B} (P : fs_op -> Prop) (m : M A) (f : A -> M B) :
  Forall P (trace m) -> (forall a, Forall P (trace (f a))) ->
  Forall P (trace (bind m f)).
Proof.
  intros Hm Hf. rewrite trace_bind. apply Forall_app. split; [exact Hm|].
  destruct (result m); [apply Hf | constructor].
Qed.

Lemma Forall_trace_all {A} (P : fs_op -> Prop) (ms : list (M A)) :
  Forall (fun m => Forall P (trace m)) ms -> Forall P (trace (all ms)).
Proof.
  intros H. rewrite trace_all. induction H; simpl; [constructor|].
  apply Forall_app. split; assumption.
Qed.

Lemma trace_lift {A} (o : outcome A) : trace (lift o) = [].
Proof. reflexivity. Qed.

Lemma getNav_trace (E : Env) (path : option string) (release : Release) :
  trace (getNav E path release) = [].
Proof.
  unfold getNav.
  destruct (getFileByRef E (branch release) path) as [text|e]; [|reflexivity].
  rewrite bind_lift_return.
  destruct (yaml_parse E text); [rewrite bind_lift_return|]; reflexivity.
Qed.

Lemma extract_no_rm (E : Env) (release : Release) (cwd dir : string)
      (entries : list TarEntry) :
  Forall (fun x => Forall (fun op => is_rm op = false) (snd x))
         (extract E release cwd dir entries).
Proof.
  induction entries as [|e rest IH]; simpl; [constructor|].
  destruct (tarFilter dir (entry_path e)); [|exact IH].
  destruct (tarStrip _ (entry_path e)) as [stripped|]; [|exact IH].
  destruct (tarCheckPath cwd stripped) as [path|]; [|exact IH].
  constructor; [|exact IH]. simpl. unfold tarWrite. cbv zeta.
  apply Forall_app. split; [|repeat constructor].
  destruct (_ =? _); repeat constructor.
Qed.

Lemma Forall_firstn {A} (P : A -> Prop) (n : nat) (l : list A) :
  Forall P l -> Forall P (firstn n l).
Proof.
  intros H. rewrite <- (firstn_skipn n l) in H. apply Forall_app in H. tauto.
Qed.

Lemma Forall_flat_map_snd (P : fs_op -> Prop) (l : list (string * list fs_op)) :
  Forall (fun x => Forall P (snd x)) l -> Forall P (flat_map snd l).
Proof.
  induction 1; simpl; [constructor|]. apply Forall_app. split; assumption.
Qed.

Lemma write_not_rm (op : fs_op) : is_write op = true -> is_rm op = false.
Proof. destruct op; simpl; congruence. Qed.

Lemma unpackTarball_no_rm (E : Env) (release : Release) (cwd dir : string) :
  Forall (fun op => is_rm op = false) (trace (unpackTarball E release cwd dir)).
Proof.
  unfold unpackTarball.
  destruct (tarball E (spec release) (resolved release)) as [entries err].
  cbv zeta. rewrite trace_bind_tell.
  apply Forall_app. split.
  - apply Forall_flat_map_snd, Forall_firstn, extract_no_rm.
  - destruct err; constructor.
Qed.

Lemma unpackTree_no_rm (E : Env) (release : Release) (cwd dir : string) :
  Forall (fun op => is_rm op = false) (trace (unpackTree E release cwd dir)).
Proof.
  unfold unpackTree. cbv zeta.
  apply Forall_trace_bind; [constructor|]. intros paths.
  apply Forall_trace_bind.
  { destruct (find _ paths); constructor. }
  intros sha. apply Forall_trace_bind; [constructor|]. intros files.
  apply Forall_trace_bind.
  { apply Forall_trace_all. apply Forall_map, Forall_forall. intros d _.
    repeat constructor. }
  intros _. apply Forall_trace_bind; [|intros; constructor].
  apply Forall_trace_all. apply Forall_map, Forall_forall. intros f _.
  fold (written E release cwd f).
  destruct (written_cases E release cwd f) as [H|[data H]]; rewrite H;
    repeat constructor.
Qed.

Lemma writeIndex_no_rm (E : Env) (release : Release) (baseNav : list NavNode)
      (nav : Nav) (cwd dir : string) :
  Forall (fun op => is_rm op = false)
         (trace (writeIndex E release baseNav nav cwd dir)).
Proof.
  unfold writeIndex. cbv zeta.
  apply Forall_trace_bind; [constructor|]. intros [n|]; [|constructor].
  rewrite trace_bind_tell. repeat constructor.
Qed.

Lemma writeChangelog_no_rm (E : Env) (release : Release) (nav : Nav)
      (cwd srcPath contentPath : string) :
  Forall (fun op => is_rm op = false)
         (trace (writeChangelog E release nav cwd srcPath contentPath)).
Proof.
  unfold writeChangelog. cbv zeta.
  apply Forall_trace_bind; [constructor|]. intros changelog.
  rewrite trace_bind_tell. repeat constructor.
Qed.

Lemma importInto_no_rm (E : Env) (release : Release) (cwd : string)
      (baseNav : list NavNode) :
  Forall (fun op => is_rm op = false) (trace (importInto E release cwd baseNav)).
Proof.
  unfold importInto.
  apply Forall_trace_bind; [constructor|]. intros [s|]; [|constructor].
  destruct (negb (Path.nonempty s)); [constructor|]. cbv zeta.
  apply Forall_trace_bind; [constructor|]. intros navPath.
  apply Forall_trace_bind; [rewrite getNav_trace; constructor|]. intros nav.
  apply Forall_trace_bind.
  { unfold extractFiles. destruct (useBranch _); [|apply unpackTarball_no_rm].
    destruct (src _); [apply unpackTree_no_rm | constructor]. }
  intros files. apply Forall_trace_bind.
  { apply Forall_trace_all. apply Forall_map, Forall_forall. intros d _.
    apply writeIndex_no_rm. }
  intros indexes. apply Forall_trace_bind; [apply writeChangelog_no_rm|].
  intros; constructor.
Qed.

(** X7. The orchestrator removes one thing only: the output directory of the
    release, as its first filesystem operation. Whatever happens afterwards,
    no other [rm] is issued. *)
Theorem unpackRelease_only_removes_cwd (E : Env) (r : Release)
        (contentPath : string) (baseNav : list NavNode)
        (force opt_prerelease : bool) :
  forall i p,
    nth_error (trace (unpackRelease E r contentPath baseNav force opt_prerelease)) i
    = Some (Rm p) ->
    i = 0 /\ exists release,
               resolveRelease E r force opt_prerelease = Return (Some release)
               /\ p = Path.join [contentPath; id release].
Proof.
  intros i p.
  destruct (resolveRelease E r force opt_prerelease) as [[release|]|e] eqn:Hres.
  - rewrite (unpackRelease_resolved E r contentPath baseNav force opt_prerelease
               release Hres).
    unfold trace at 1. simpl snd.
    destruct i as [|[|i]]; simpl.
    + intros H. inversion H. split; [reflexivity|]. exists release. auto.
    + discriminate.
    + intros H. apply nth_error_In in H.
      pose proof (importInto_no_rm E release
                    (Path.join [contentPath; id release]) baseNav) as Hno.
      rewrite Forall_forall in Hno. specialize (Hno _ H). discriminate.
  - unfold unpackRelease. rewrite Hres, bind_lift_return. simpl.
    destruct i; discriminate.
  - unfold unpackRelease. rewrite Hres, bind_lift_throw. simpl.
    destruct i; discriminate.
Qed.

Lemma unpackRelease_only_removes_cwd_witness :
  0 = 0 /\ exists release,
      resolveRelease Sample.world Sample.v9 false false = Return (Some release)
      /\ "content/cli/v9" = Path.join ["content/cli"; id release].
Proof.
  apply (unpackRelease_only_removes_cwd Sample.world Sample.v9 "content/cli"
           Sample.baseNav false false 0 "content/cli/v9").
  reflexivity.
Defined.

(** X8. When neither candidate source directory exists (or the probe answers with
    an empty path), the run fails with "Could not find source dir", and by
    then the output directory has been removed and recreated empty. *)
Theorem unpackRelease_source_dir_not_found (E : Env) (r : Release)
        (contentPath : string) (baseNav : list NavNode)
        (force opt_prerelease : bool) (release : Release) :
  resolveRelease E r force opt_prerelease = Return (Some release) ->
  (nullish_or (pathExists E (branch release) srcPath)
              (pathExists E (branch release) builtPath) = Return None
   \/ nullish_or (pathExists E (branch release) srcPath)
                 (pathExists E (branch release) builtPath) = Return (Some "")) ->
  let cwd := Path.join [contentPath; id release] in
  unpackRelease E r contentPath baseNav force opt_prerelease
  = (Throw (Error ("Could not find source dir for " ++ id release)%string),
     [Rm cwd; Mkdir cwd]).
Proof.
  intros Hres Hsrc cwd.
  rewrite (unpackRelease_resolved E r contentPath baseNav force opt_prerelease
             release Hres).
  fold cwd. unfold importInto.
  destruct Hsrc as [Hsrc|Hsrc]; rewrite Hsrc, bind_lift_return; reflexivity.
Qed.

(** ** Index generation and changelog merge: what a failure leaves behind *)

Lemma result_all_throw {A} (ms : list (M A)) :
  (forall e, result (all ms) = Throw e -> exists m, In m ms /\ result m = Throw e)
  /\ ((exists m e, In m ms /\ result m = Throw e) ->
      exists e, result (all ms) = Throw e).
Proof.
  induction ms as [|m ms [IH1 IH2]].
  - split; [discriminate|]. intros [m [e [[] _]]].
  - simpl. destruct (all ms) as [r' t'] eqn:Hall. unfold result in *. simpl in *.
    destruct m as [[a|e0] t]; simpl.
    + split.
      * intros e He. destruct r' as [l|e1]; [discriminate|]. inversion He; subst.
        destruct (IH1 e eq_refl) as [m [Hin Hm]]. exists m. auto.
      * intros [m [e [[Hm|Hin] He]]].
        -- subst m. discriminate.
        -- destruct IH2 as [e' He']; [exists m, e; auto|]. rewrite He'.
           exists e'. reflexivity.
    + split.
      * intros e He. inversion He; subst. exists (Throw e, t). auto.
      * intros _. exists e0. reflexivity.
Qed.

Lemma writeIndex_throws_TypeError (E : Env) (release : Release)
      (baseNav : list NavNode) (nav : Nav) (cwd dir : string) (e : exn) :
  result (writeIndex E release baseNav nav cwd dir) = Throw e ->
  exists msg, e = TypeError msg.
Proof.
  unfold writeIndex, findNavSection. cbv zeta.
  destruct (Path.nonempty dir).
  - destruct (nav_children nav) as [cs|].
    + rewrite bind_lift_return.
      destruct (find _ cs); simpl; intros H; inversion H. eexists; reflexivity.
    + simpl. intros H; inversion H. eexists; reflexivity.
  - rewrite bind_lift_return.
    destruct (find _ baseNav); simpl; intros H; inversion H. eexists; reflexivity.
Qed.

(** X9. Index generation goes through every directory: each directory with a
    navigation match gets its index document, also when another directory
    has none; and one directory without a match makes the whole step throw a
    [TypeError]. *)
Theorem writeIndex_all_partial (E : Env) (release : Release)
        (baseNav : list NavNode) (nav : Nav) (cwd : string) (dirs : list string) :
  let run := all (map (writeIndex E release baseNav nav cwd) dirs) in
  (forall d n,
      In d dirs ->
      findNavSection release baseNav nav d = Return (Some n) ->
      In (WriteFile (Path.join [cwd; Path.join [d; "index.mdx"]])
                    (transform E indexBody
                       (mkTransformOpts (Path.join [d; "index.mdx"]) release
                          (Some (mkFrontmatter (nav_path nav) (title n) (shortName n))))))
         (trace run))
  /\ (forall d,
         In d dirs ->
         findNavSection release baseNav nav d = Return None ->
         exists msg, result run = Throw (TypeError msg))
  /\ Forall (fun op => is_write op = true) (trace run).
Proof.
  intros run. split; [|split].
  - intros d n Hd Hn. unfold run. rewrite trace_all, flat_map_map.
    apply in_flat_map. exists d. split; [exact Hd|].
    rewrite (writeIndex_match E release baseNav nav cwd d n Hn). now left.
  - intros d Hd Hn.
    destruct (result_all_throw (map (writeIndex E release baseNav nav cwd) dirs))
      as [H1 H2].
    destruct H2 as [e He].
    { exists (writeIndex E release baseNav nav cwd d). eexists. split.
      - apply in_map. exact Hd.
      - unfold writeIndex. cbv zeta. rewrite Hn, bind_lift_return. reflexivity. }
    destruct (H1 e He) as [m [Hin Hm]].
    apply in_map_iff in Hin. destruct Hin as [d' [Hd' _]]. subst m.
    apply writeIndex_throws_TypeError in Hm. destruct Hm as [msg ->].
    exists msg. exact He.
  - unfold run. apply Forall_trace_all, Forall_map, Forall_forall. intros d _.
    unfold writeIndex. cbv zeta.
    apply Forall_trace_bind; [constructor|]. intros [n|]; [|constructor].
    rewrite trace_bind_tell. repeat constructor.
Qed.

Lemma writeIndex_all_partial_witness :
  (exists msg,
      result (all (map (writeIndex Sample.world Sample.v9 Sample.baseNav Sample.nav9
                                   "content/cli/v9")
                       [""; "guide"; "commands"]))
      = Throw (TypeError msg))
  /\ In "content/cli/v9/commands/index.mdx"
        (map op_path
             (trace (all (map (writeIndex Sample.world Sample.v9 Sample.baseNav
                                          Sample.nav9 "content/cli/v9")
                              [""; "guide"; "commands"])))).
Proof.
  destruct (writeIndex_all_partial Sample.world Sample.v9 Sample.baseNav Sample.nav9
              "content/cli/v9" [""; "guide"; "commands"]) as [Hw [Ht _]].
  split.
  - apply (Ht "guide"); [simpl; auto | reflexivity].
  - apply in_map_iff. eexists. split; [|apply (Hw "commands"); [simpl; auto | reflexivity]].
    reflexivity.
Defined.

(** X10. The changelog document is written before the navigation is touched: when
    there is no last top-level section, or it has no child sequence, the
    merge throws a [TypeError] and the document stays written. *)
Theorem writeChangelog_nowhere_to_append (E : Env) (release : Release) (nav : Nav)
        (cwd srcPath contentPath text : string) :
  getFileByRef E (branch release) (Some srcPath) = Return text ->
  (nav_children nav = None
   \/ nav_children nav = Some []
   \/ exists secs sec, nav_children nav = Some (secs ++ [sec])
                       /\ children sec = None) ->
  exists msg,
    writeChangelog E release nav cwd srcPath contentPath
    = (Throw (TypeError msg),
       [WriteFile (Path.join [cwd; (contentPath ++ ".md")%string])
                  (transform E (escapeGt text)
                     (mkTransformOpts contentPath release
                        (Some (mkFrontmatter (Some srcPath) "Changelog" None))))]).
Proof.
  intros Hf Hnav. unfold writeChangelog. cbv zeta.
  rewrite Hf, bind_lift_return, bind_tell_eq.
  assert (Hp : exists msg,
             pushChangelog (changelogLeaf release contentPath) nav
             = Throw (TypeError msg)).
  { unfold pushChangelog.
    destruct Hnav as [H|[H|[secs [sec [H Hc]]]]]; rewrite H.
    - eexists; reflexivity.
    - eexists; reflexivity.
    - destruct (secs ++ [sec]) as [|x l] eqn:Hl.
      + destruct secs; discriminate.
      + rewrite <- Hl.
        replace (length (secs ++ [sec]) - 1) with (length secs)
          by (rewrite length_app; simpl; lia).
        rewrite nth_error_app2 by lia. rewrite Nat.sub_diag. simpl.
        rewrite Hc. eexists; reflexivity. }
  destruct Hp as [msg Hp]. exists msg. rewrite Hp. reflexivity.
Qed.

Lemma writeChangelog_nowhere_to_append_witness :
  exists msg,
    writeChangelog Sample.world Sample.v9 (mkNav None (Some [])) "out"
                   "CHANGELOG.md" "using-npm/changelog"
    = (Throw (TypeError msg),
       [WriteFile "out/using-npm/changelog.md" "using-npm/changelog:a\>>b foo\>bar"]).
Proof.
  destruct (writeChangelog_nowhere_to_append
              Sample.world Sample.v9 (mkNav None (Some [])) "out"
              "CHANGELOG.md" "using-npm/changelog" "a>>b foo>bar" eq_refl)
    as [msg H].
  - right. left. reflexivity.
  - exists msg. exact H.
Defined.

Lemma unpackRelease_source_dir_not_found_witness :
  unpackRelease Sample.emptyRepo Sample.v9 "content/cli" Sample.baseNav false false
  = (Throw (Error "Could not find source dir for v9"),
     [Rm "content/cli/v9"; Mkdir "content/cli/v9"]).
Proof.
  apply (unpackRelease_source_dir_not_found Sample.emptyRepo Sample.v9 "content/cli"
           Sample.baseNav false false Sample.v9_resolved).
  - reflexivity.
  - left. reflexivity.
Defined.

(** ** A complete run *)

Lemma bind_return_trace {A B} (a : A) (t : list fs_op) (f : A -> M B) :
  bind (Return a, t) f = (result (f a), t ++ trace (f a)).
Proof. unfold bind, result, trace. destruct (f a); reflexivity. Qed.



(** ** More on unpackTarball *)

Lemma split_wrapper (w rest : string) :
  no_sep w -> Path.split (w ++ "/" ++ rest) = w :: Path.split rest.
Proof. intros Hw. apply (split_app_sep w rest Hw). Qed.

(** X12. The name of the archive's top-level directory plays no part: two archives
    that differ only in that name are extracted to the same files. *)
Theorem extract_wrapper_independent (E : Env) (release : Release)
        (cwd dir w1 w2 : string) (l : list (string * string)) :
  no_sep w1 -> no_sep w2 ->
  extract E release cwd dir
          (map (fun x => mkTarEntry (w1 ++ "/" ++ fst x) (snd x)) l)
  = extract E release cwd dir
            (map (fun x => mkTarEntry (w2 ++ "/" ++ fst x) (snd x)) l).
Proof.
  intros H1 H2.
  assert (Hf : forall rest, tarFilter dir (w1 ++ "/" ++ rest)
                            = tarFilter dir (w2 ++ "/" ++ rest)).
  { intros rest. unfold tarFilter, slice. cbv zeta.
    rewrite (split_wrapper w1 rest H1), (split_wrapper w2 rest H2). reflexivity. }
  assert (Hs : forall rest, tarStrip (length (Path.split dir) + 1) (w1 ++ "/" ++ rest)
                            = tarStrip (length (Path.split dir) + 1) (w2 ++ "/" ++ rest)).
  { intros rest. unfold tarStrip. cbv zeta.
    rewrite (split_wrapper w1 rest H1), (split_wrapper w2 rest H2).
    rewrite Nat.add_1_r. reflexivity. }
  induction l as [|x l IH]; [reflexivity|].
  cbn [map extract entry_path entry_data]. rewrite Hf, Hs, IH. reflexivity.
Qed.

Lemma extract_wrapper_independent_witness :
  extract Sample.world Sample.v9 "out" "docs/content"
          [mkTarEntry "package/docs/content/guide/intro.md" "intro"]
  = extract Sample.world Sample.v9 "out" "docs/content" Sample.scenarioArchive.
Proof.
  apply (extract_wrapper_independent Sample.world Sample.v9 "out" "docs/content"
           "package" "pkg-1.0.0" [("docs/content/guide/intro.md", "intro")]);
    simpl; repeat split; reflexivity.
Defined.


(** ** More on unpackTree *)

Section TreeDirectory.

Import Path.

Lemma concat_split (s : string) : String.concat "/" (split s) = s.
Proof.
  induction s as [|c s IH]; [reflexivity|]. simpl.
  destruct (is_sep c) eqn:Hc.
  - apply Ascii.eqb_eq in Hc. subst c.
    pose proof (split_not_nil s) as Hne.
    destruct (split s) as [|h t] eqn:Hs; [contradiction|].
    change (String.concat "/" ("" :: h :: t))
      with (String sep (String.concat "/" (h :: t))).
    rewrite IH. reflexivity.
  - pose proof (split_not_nil s) as Hne.
    destruct (split s) as [|h t] eqn:Hs; [contradiction|].
    destruct t as [|h' t'].
    + simpl in *. now rewrite IH.
    + change (String.concat "/" (String c h :: h' :: t'))
        with (String c (String.concat "/" (h :: h' :: t'))).
      rewrite IH. reflexivity.
Qed.

Lemma concat_snoc (init : list string) (x : string) :
  init <> [] ->
  String.concat "/" (init ++ [x]) = (String.concat "/" init ++ "/" ++ x)%string.
Proof.
  induction init as [|a init IH]; intros Hne; [contradiction|].
  destruct init as [|b init'].
  - reflexivity.
  - change (String.concat "/" ((a :: b :: init') ++ [x]))
      with (a ++ "/" ++ String.concat "/" ((b :: init') ++ [x]))%string.
    rewrite IH by discriminate.
    change (String.concat "/" (a :: b :: init'))
      with (a ++ "/" ++ String.concat "/" (b :: init'))%string.
    rewrite !string_append_assoc. reflexivity.
Qed.

Lemma normalize_plain (d : list string) :
  Forall plain d -> Forall no_sep d -> d <> [] ->
  normalize (String.concat "/" d) = String.concat "/" d.
Proof.
  intros Hp Hs Hne. rewrite <- (join_plain d Hp Hs Hne) at 2.
  unfold join. rewrite (plain_nonempty d Hp).
  destruct d; [contradiction | reflexivity].
Qed.

(** X14. [unpackTree] splits its directory into the parent it lists and the child
    it looks for; for a directory made of ordinary names the two put together
    again are the directory (a single name has the parent ["."]). *)
Theorem unpackTree_parent_child (dir : string) :
  plain_dir dir ->
  let dirParts := split dir in
  join [join (removelast dirParts); last dirParts ""] = dir
  /\ (length dirParts = 1 -> join (removelast dirParts) = ".")
  /\ no_sep (last dirParts "").
Proof.
  intros Hp dirParts.
  pose proof (split_no_sep dir) as Hs. fold dirParts in Hs.
  unfold plain_dir in Hp. fold dirParts in Hp.
  pose proof (concat_split dir) as Hc. fold dirParts in Hc.
  destruct (exists_last (split_not_nil dir)) as [init [x Hd]]. fold dirParts in Hd.
  rewrite Hd in *. rewrite removelast_last, last_last.
  apply Forall_app in Hp. destruct Hp as [Hpi Hpx].
  apply Forall_app in Hs. destruct Hs as [Hsi Hsx].
  pose proof (Forall_inv Hpx) as Hx. pose proof (Forall_inv Hsx) as Hnx.
  split; [|split].
  - destruct init as [|a init'].
    + simpl in Hc. subst dir.
      rewrite join_no_sep by (repeat constructor; assumption).
      destruct (plain_tests x Hx) as [E1 [E2 E3]].
      assert (Hne : nonempty x = true) by (unfold nonempty; now rewrite E1).
      simpl. rewrite Hne. simpl. rewrite E1, E2, E3. simpl. rewrite E1. reflexivity.
    + assert (Hi : a :: init' <> []) by discriminate.
      rewrite (join_plain (a :: init') Hpi Hsi Hi).
      assert (Ha : String.concat "/" (a :: init') <> "").
      { apply concat_cons_nonempty. inversion Hpi; subst.
        match goal with H : plain a |- _ => apply H end. }
      unfold join. cbn [filter].
      apply nonempty_true in Ha. rewrite Ha.
      destruct Hx as [Hx0 Hx']. apply nonempty_true in Hx0. rewrite Hx0.
      change (String.concat "/" [String.concat "/" (a :: init'); x])
        with (String.concat "/" (a :: init') ++ "/" ++ x)%string.
      rewrite <- (concat_snoc (a :: init') x Hi).
      rewrite normalize_plain; [exact Hc | | | ].
      * apply Forall_app. split; [exact Hpi|]. constructor; [|constructor].
        split; [now apply nonempty_true | exact Hx'].
      * apply Forall_app. split; assumption.
      * destruct init'; discriminate.
  - intros Hlen. rewrite length_app in Hlen. simpl in Hlen.
    destruct init; [reflexivity | simpl in Hlen; lia].
  - exact Hnx.
Qed.

End TreeDirectory.

Lemma plain_docs_lib_content : plain_dir "docs/lib/content".
Proof.
  unfold plain_dir. simpl.
  repeat constructor; unfold plain; repeat split; discriminate.
Defined.

Lemma unpackTree_parent_child_witness :
  Path.join [Path.join (removelast (Path.split "docs/lib/content"));
             last (Path.split "docs/lib/content") ""]
  = "docs/lib/content".
Proof.
  apply (proj1 (unpackTree_parent_child "docs/lib/content" plain_docs_lib_content)).
Defined.

(** X15. When the parent listing has no entry named like the last segment of the
    directory, reading [sha] of the missing entry throws a [TypeError]; no
    directory is created and nothing is written. *)
Theorem unpackTree_missing_entry (E : Env) (release : Release) (cwd dir : string)
        (paths : list DirEntry) :
  getDirectory E (branch release) (Path.join (removelast (Path.split dir)))
  = Return paths ->
  (forall p, In p paths -> entry_name p <> last (Path.split dir) "") ->
  unpackTree E release cwd dir
  = (Throw (TypeError "Cannot read properties of undefined (reading 'sha')"), []).
Proof.
  intros Hd Hno. unfold unpackTree. cbv zeta. rewrite Hd, bind_lift_return.
  destruct (find _ paths) as [p|] eqn:Hf; [|reflexivity].
  apply find_some in Hf. destruct Hf as [Hin Hp].
  apply String.eqb_eq in Hp. exfalso. exact (Hno p Hin Hp).
Qed.

Lemma unpackTree_missing_entry_witness :
  unpackTree Sample.world Sample.v6 "content/cli/v6" "docs/lib/guide"
  = (Throw (TypeError "Cannot read properties of undefined (reading 'sha')"), []).
Proof.
  apply (unpackTree_missing_entry Sample.world Sample.v6 "content/cli/v6"
           "docs/lib/guide" [mkDirEntry "lib" "l1"; mkDirEntry "content" "abc123"]).
  - reflexivity.
  - intros p [<-|[<-|[]]]; discriminate.
Defined.

Lemma written_all_fetched (E : Env) (release : Release) (cwd : string)
      (l : list FileRecord) :
  (forall f, In f l -> exists buf, getFileBySha E (file_sha f) = Return buf) ->
  length (flat_map (written E release cwd) l) = length l.
Proof.
  induction l as [|f l IH]; intros Hall; [reflexivity|].
  simpl. rewrite length_app, IH by (intros; apply Hall; now right).
  destruct (Hall f (or_introl eq_refl)) as [buf Hbuf].
  unfold written, fetchAndWrite. rewrite Hbuf, bind_lift_return. reflexivity.
Qed.

(** X16. [unpackTree] returns the paths in the order of the remote listing, not in
    the order in which the fetches settle, and it returns them only when
    every file could be fetched: one failed fetch makes it throw, although the
    directories have been created and the other files are written. *)
Theorem unpackTree_returns_listing (E : Env) (release : Release) (cwd dir : string)
        (paths : list DirEntry) (entry : DirEntry) (files : list FileRecord) :
  getDirectory E (branch release) (Path.join (removelast (Path.split dir)))
  = Return paths ->
  find (fun p => entry_name p =? last (Path.split dir) "") paths = Some entry ->
  getAllFiles E (entry_sha entry) = Return files ->
  Permutation (settle_order E files) files ->
  let run := unpackTree E release cwd dir in
  ((forall f, In f files -> exists buf, getFileBySha E (file_sha f) = Return buf) ->
   result run = Return (map file_path files)
   /\ length (trace run) = length (treeDirs cwd files) + length files)
  /\ (forall f e, In f files -> getFileBySha E (file_sha f) = Throw e ->
        (exists e', result run = Throw e')
        /\ forall g buf, In g files -> getFileBySha E (file_sha g) = Return buf ->
             In (WriteFile (Path.join [cwd; file_path g])
                           (transform E buf (mkTransformOpts (file_path g) release None)))
                (trace run)).
Proof.
  intros Hd Hf Ha Hperm run.
  assert (Ht : trace run = map Mkdir (treeDirs cwd files)
                           ++ flat_map (written E release cwd) (settle_order E files))
    by (apply (unpackTree_trace E release cwd dir paths entry files); assumption).
  assert (Hr : result run
               = match result (all (map (fetchAndWrite E release cwd)
                                        (settle_order E files))) with
                 | Return _ => Return (map file_path files)
                 | Throw e => Throw e
                 end).
  { unfold run, unpackTree. cbv zeta.
    rewrite Hd, bind_lift_return, Hf, bind_ret, Ha, bind_lift_return.
    rewrite (all_success (fun d => tell [Mkdir d]) (fun _ => tt) Mkdir)
      by (intros; reflexivity).
    rewrite bind_return_trace.
    destruct (all (map (fetchAndWrite E release cwd) (settle_order E files)))
      as [[l|e] t]; reflexivity. }
  destruct (result_all_throw (map (fetchAndWrite E release cwd) (settle_order E files)))
    as [T1 T2].
  split.
  - intros Hall. split.
    + rewrite Hr.
      destruct (result (all _)) as [l|e] eqn:Hres; [reflexivity|].
      destruct (T1 e eq_refl) as [m [Hin Hm]].
      apply in_map_iff in Hin. destruct Hin as [f [Hfm Hfin]]. subst m.
      apply (Permutation_in _ Hperm) in Hfin.
      destruct (Hall f Hfin) as [buf Hbuf].
      unfold fetchAndWrite in Hm. rewrite Hbuf, bind_lift_return in Hm. discriminate.
    + rewrite Ht, length_app, length_map. f_equal.
      rewrite <- (Permutation_length Hperm).
      apply written_all_fetched. intros f Hfin. apply Hall.
      apply (Permutation_in _ Hperm). exact Hfin.
  - intros f e Hfin Hfe. split.
    + destruct T2 as [e' He'].
      { exists (fetchAndWrite E release cwd f), e. split.
        - apply in_map. apply (Permutation_in _ (Permutation_sym Hperm)). exact Hfin.
        - unfold fetchAndWrite. rewrite Hfe. reflexivity. }
      exists e'. rewrite Hr, He'. reflexivity.
    + intros g buf Hg Hbuf. rewrite Ht. apply in_or_app. right.
      apply in_flat_map. exists g. split.
      * apply (Permutation_in _ (Permutation_sym Hperm)). exact Hg.
      * unfold written, fetchAndWrite. rewrite Hbuf, bind_lift_return. now left.
Qed.

Lemma unpackTree_returns_listing_witness :
  result (unpackTree Sample.world Sample.v6 "content/cli/v6" "docs/lib/content")
  = Return ["commands/npm-install.md"; "using-npm/registry.md"].
Proof.
  destruct (unpackTree_returns_listing
              Sample.world Sample.v6 "content/cli/v6" "docs/lib/content"
              [mkDirEntry "lib" "l1"; mkDirEntry "content" "abc123"]
              (mkDirEntry "content" "abc123") Sample.remoteFiles
              eq_refl eq_refl eq_refl) as [H _].
  - apply Permutation_sym. apply (Permutation_rev Sample.remoteFiles).
  - destruct H as [Hr _]; [|exact Hr].
    intros f _. eexists. reflexivity.
Defined.

(** ** Directories, base names and the files written *)

Section DirnameBasename.

Import Path.

Lemma list_ascii_app (a b : string) :
  list_ascii_of_string (a ++ b)
  = list_ascii_of_string a ++ list_ascii_of_string b.
Proof. induction a as [|c a IH]; simpl; [reflexivity | now rewrite IH]. Qed.

Lemma no_sep_chars (x : string) :
  no_sep x -> Forall (fun c => is_sep c = false) (list_ascii_of_string x).
Proof.
  induction x as [|c x IH]; simpl; intros H; [constructor|].
  destruct H as [Hc Hx]. constructor; [exact Hc | apply IH; exact Hx].
Qed.

Lemma dirname_scan_false (l R : list ascii) :
  Forall (fun c => is_sep c = false) l ->
  dirname_scan (l ++ sep :: R) false = Some R.
Proof.
  induction 1 as [|c l Hc Hl IH]; simpl; [reflexivity|]. now rewrite Hc.
Qed.

Lemma dirname_scan_segment (l R : list ascii) :
  Forall (fun c => is_sep c = false) l -> l <> [] ->
  dirname_scan (l ++ sep :: R) true = Some R.
Proof.
  intros Hl Hne. destruct l as [|c l]; [contradiction|].
  inversion Hl; subst. simpl.
  match goal with H : is_sep c = false |- _ => rewrite H end.
  now apply dirname_scan_false.
Qed.

(** [dirname] of a path that ends in a separator and a name is what stands
    before that separator. *)
Lemma dirname_app (a x : string) :
  a <> "" -> a <> "/" -> no_sep x -> x <> "" ->
  dirname (a ++ "/" ++ x) = a.
Proof.
  intros Ha Hroot Hx Hxne. destruct a as [|c0 ra]; [contradiction|].
  change ((String c0 ra ++ "/" ++ x)%string) with (String c0 (ra ++ String sep x)).
  unfold dirname. cbv zeta.
  rewrite list_ascii_app. simpl list_ascii_of_string.
  rewrite rev_app_distr. simpl rev. rewrite <- app_assoc. simpl app.
  rewrite dirname_scan_segment.
  - destruct (rev (list_ascii_of_string ra)) as [|c r] eqn:Hr.
    + assert (Hra : ra = "").
      { destruct ra as [|c ra']; [reflexivity|].
        simpl in Hr. destruct (rev (list_ascii_of_string ra')); discriminate. }
      subst ra. destruct (is_sep c0) eqn:Hc0; [|reflexivity].
      apply Ascii.eqb_eq in Hc0. subst c0. contradiction.
    + rewrite <- Hr, rev_involutive, string_of_list_ascii_of_string. reflexivity.
  - apply Forall_rev. now apply no_sep_chars.
  - destruct x as [|c x']; [contradiction|]. simpl.
    destruct (rev (list_ascii_of_string x')); discriminate.
Qed.

Lemma dirname_no_sep (x : string) : no_sep x -> x <> "" -> dirname x = ".".
Proof.
  intros Hx Hne. destruct x as [|c0 rest]; [contradiction|].
  destruct Hx as [Hc Hrest]. unfold dirname. cbv zeta. rewrite Hc.
  assert (H : forall l m, Forall (fun c => is_sep c = false) l ->
                          dirname_scan l m = None).
  { induction l as [|c l IH]; intros m Hl; [reflexivity|].
    inversion Hl; subst. simpl.
    match goal with H : is_sep c = false |- _ => rewrite H end. now apply IH. }
  rewrite H; [reflexivity|]. apply Forall_rev. now apply no_sep_chars.
Qed.

Lemma takeSegment_app (l R : list ascii) :
  Forall (fun c => is_sep c = false) l -> takeSegment (l ++ sep :: R) = l.
Proof.
  induction 1 as [|c l Hc Hl IH]; simpl; [reflexivity|]. now rewrite Hc, IH.
Qed.

(** [basename] of a path that ends in a separator and a name is that name. *)
Lemma basename_app (a x : string) :
  no_sep x -> x <> "" -> basename (a ++ "/" ++ x) = x.
Proof.
  intros Hx Hne. unfold basename.
  change ((a ++ "/" ++ x)%string) with ((a ++ String sep x)%string).
  rewrite list_ascii_app. simpl list_ascii_of_string.
  rewrite rev_app_distr. simpl rev. rewrite <- app_assoc. simpl app.
  pose proof (no_sep_chars x Hx) as Hc. apply Forall_rev in Hc.
  destruct (rev (list_ascii_of_string x)) as [|c r] eqn:Hr.
  - destruct x as [|c x']; [contradiction|]. simpl in Hr.
    destruct (rev (list_ascii_of_string x')); discriminate.
  - inversion Hc; subst.
    change ((c :: r) ++ sep :: rev (list_ascii_of_string a))
      with (c :: (r ++ sep :: rev (list_ascii_of_string a))).
    cbn [dropSeps].
    match goal with H : is_sep c = false |- _ => rewrite H end.
    change (c :: r ++ sep :: rev (list_ascii_of_string a))
      with ((c :: r) ++ sep :: rev (list_ascii_of_string a)).
    rewrite takeSegment_app by assumption.
    rewrite <- Hr, rev_involutive. apply string_of_list_ascii_of_string.
Qed.

Lemma no_sep_not_root (d : string) : no_sep d -> d <> "/".
Proof. intros H Heq. subst d. simpl in H. destruct H as [H _]. discriminate. Qed.

End DirnameBasename.

(** X17. An extracted file [d/name] puts [d] among the directories that get an
    index, and the index of [d] is wired to a navigation node: if the
    navigation description has a top-level node whose url ends in [/d], the
    lookup for [d] succeeds after the rewrite, whatever [release.url] is, and
    yields a node whose url has [d] as its last segment. *)
Theorem index_for_extracted_file (release : Release) (baseNav : list NavNode)
        (path : option string) (cs : list NavNode) (files : list string)
        (d name u : string) (n : NavNode) :
  no_sep d -> d <> "" -> no_sep name -> name <> "" ->
  In (d ++ "/" ++ name)%string files ->
  In n cs -> nav_url n = (u ++ "/" ++ d)%string ->
  In d (indexDirs files)
  /\ exists n',
      findNavSection release baseNav
                     (mkNav path (rewriteUrls (url release) (Some cs))) d
      = Return (Some n')
      /\ Path.basename (nav_url n') = d.
Proof.
  intros Hd Hdne Hname Hnne Hfile Hn Hurl. split.
  - unfold indexDirs. right.
    apply (proj2 (uniq_spec (map Path.dirname files))).
    apply in_map_iff. exists (d ++ "/" ++ name)%string. split; [|exact Hfile].
    apply dirname_app; auto using no_sep_not_root.
  - unfold findNavSection. apply nonempty_true in Hdne. rewrite Hdne. simpl.
    destruct (find (fun c => Path.basename (nav_url c) =? d)
                   (map (rewriteNode (url release)) cs)) as [n'|] eqn:Hf.
    + exists n'. split; [reflexivity|].
      apply find_some in Hf. destruct Hf as [_ Hb]. now apply String.eqb_eq.
    + exfalso.
      assert (Hin : In (rewriteNode (url release) n)
                       (map (rewriteNode (url release)) cs)) by now apply in_map.
      pose proof (find_none _ _ Hf _ Hin) as Hb. simpl in Hb.
      destruct (rewriteNode_fields (url release) n) as [Hu _].
      rewrite Hu, Hurl, <- string_append_assoc in Hb.
      rewrite basename_app in Hb by (assumption || now apply nonempty_true).
      rewrite String.eqb_refl in Hb. discriminate.
Qed.

Lemma index_for_extracted_file_witness :
  In "commands" (indexDirs ["commands/npm-install.md"])
  /\ exists n',
      findNavSection Sample.v9 Sample.baseNav Sample.nav9 "commands"
      = Return (Some n')
      /\ Path.basename (nav_url n') = "commands".
Proof.
  apply (index_for_extracted_file Sample.v9 Sample.baseNav (Some "docs/nav.yml")
           Sample.navDescription ["commands/npm-install.md"]
           "commands" "npm-install.md" "" Sample.commandsSection);
    try (simpl; repeat split; reflexivity); try discriminate.
  - left. reflexivity.
  - left. reflexivity.
Defined.

Section JoinTwo.

Import Path.

Lemma concat_app (l1 l2 : list string) :
  l1 <> [] -> l2 <> [] ->
  String.concat "/" (l1 ++ l2)
  = (String.concat "/" l1 ++ "/" ++ String.concat "/" l2)%string.
Proof.
  intros H1 H2. induction l1 as [|a l1 IH]; [contradiction|].
  destruct l1 as [|b l1'].
  - destruct l2 as [|c l2']; [contradiction | reflexivity].
  - change (String.concat "/" ((a :: b :: l1') ++ l2))
      with (a ++ "/" ++ String.concat "/" ((b :: l1') ++ l2))%string.
    rewrite IH by discriminate.
    change (String.concat "/" (a :: b :: l1'))
      with (a ++ "/" ++ String.concat "/" (b :: l1'))%string.
    rewrite !string_append_assoc. reflexivity.
Qed.

Lemma plain_dir_nonempty (s : string) : plain_dir s -> s <> "".
Proof.
  intros Hp Hs. subst s. unfold plain_dir in Hp. simpl in Hp.
  apply Forall_inv in Hp. destruct Hp as [H _]. now apply H.
Qed.

Lemma plain_dir_concat (l : list string) :
  Forall plain l -> Forall no_sep l -> l <> [] ->
  plain_dir (String.concat "/" l).
Proof.
  intros Hp Hs Hne. unfold plain_dir. now rewrite split_concat.
Qed.

(** [join] of two paths made of ordinary names puts a separator between
    them. *)
Lemma join_two_plain (a b : string) :
  plain_dir a -> plain_dir b -> join [a; b] = (a ++ "/" ++ b)%string.
Proof.
  intros Ha Hb. unfold join. cbn [filter].
  pose proof (plain_dir_nonempty a Ha) as Hane.
  pose proof (plain_dir_nonempty b Hb) as Hbne.
  apply nonempty_true in Hane. apply nonempty_true in Hbne.
  rewrite Hane, Hbne.
  change (String.concat "/" [a; b]) with (a ++ "/" ++ b)%string.
  rewrite <- (concat_split a) at 1 2. rewrite <- (concat_split b) at 1 2.
  rewrite <- concat_app by apply split_not_nil.
  apply normalize_plain.
  - apply Forall_app. split; assumption.
  - apply Forall_app. split; apply split_no_sep.
  - pose proof (split_not_nil a). destruct (split a); [contradiction | discriminate].
Qed.

Lemma normalizeString_app_plain (a : bool) (d1 d2 : list string) :
  Forall plain d1 ->
  forall res, normalizeString a (d1 ++ d2) res = normalizeString a d2 (rev d1 ++ res).
Proof.
  induction 1 as [|seg rest Hp Hrest IH]; intros res; [reflexivity|].
  destruct (plain_tests seg Hp) as [E1 [E2 E3]].
  simpl. rewrite E1, E2, E3. simpl. rewrite IH. now rewrite <- app_assoc.
Qed.

Lemma join_dot (a : string) : plain_dir a -> join [a; "."] = a.
Proof.
  intros Ha. unfold join. cbn [filter].
  pose proof (plain_dir_nonempty a Ha) as Hane. apply nonempty_true in Hane.
  rewrite Hane.
  change (String.concat "/" (a :: (if nonempty "." then ["."] else [])))
    with (a ++ "/" ++ ".")%string.
  assert (Hj : join (split a ++ ["."]) = normalize (a ++ "/" ++ ".")).
  { unfold join.
    assert (Hf : filter nonempty (split a ++ ["."]) = split a ++ ["."]).
    { rewrite filter_app, (plain_nonempty (split a) Ha). reflexivity. }
    rewrite Hf.
    pose proof (split_not_nil a) as Hne.
    destruct (split a ++ ["."]) as [|x t] eqn:Hl.
    - destruct (split a); [contradiction | discriminate].
    - rewrite <- Hl, concat_snoc by exact Hne. rewrite concat_split. reflexivity. }
  rewrite <- Hj. rewrite join_no_sep.
  - cbv zeta.
    assert (Hf : filter nonempty (split a ++ ["."]) = split a ++ ["."]).
    { rewrite filter_app, (plain_nonempty (split a) Ha). reflexivity. }
    rewrite Hf, (normalizeString_app_plain true (split a) ["."] Ha). simpl.
    rewrite app_nil_r, rev_involutive, concat_split.
    apply nonempty_true in Hane. apply String.eqb_neq in Hane. now rewrite Hane.
  - apply Forall_app. split; [apply split_no_sep|].
    repeat constructor.
Qed.

(** The directory that holds [join(cwd, path)] is [join(cwd, dirname(path))],
    for a [cwd] and a path made of ordinary names. *)
Lemma dirname_join (cwd p : string) :
  plain_dir cwd -> plain_dir p ->
  dirname (join [cwd; p]) = join [cwd; dirname p].
Proof.
  intros Hc Hp.
  pose proof (plain_dir_nonempty cwd Hc) as Hcne.
  rewrite (join_two_plain cwd p Hc Hp).
  destruct (exists_last (split_not_nil p)) as [init [x Hsp]].
  pose proof (split_no_sep p) as Hs. unfold plain_dir in Hp. rewrite Hsp in Hs, Hp.
  apply Forall_app in Hp. destruct Hp as [Hpi Hpx].
  apply Forall_app in Hs. destruct Hs as [Hsi Hsx].
  pose proof (Forall_inv Hpx) as [Hxne _]. pose proof (Forall_inv Hsx) as Hxs.
  pose proof (concat_split p) as Hcp. rewrite Hsp in Hcp.
  destruct init as [|i0 init'].
  - simpl in Hcp. subst p.
    rewrite (dirname_no_sep x Hxs Hxne), (join_dot cwd Hc).
    apply dirname_app; try assumption.
    intros Heq. subst cwd. unfold plain_dir in Hc. simpl in Hc.
    apply Forall_inv in Hc. destruct Hc as [H _]. now apply H.
  - assert (Hi : i0 :: init' <> []) by discriminate.
    rewrite concat_snoc in Hcp by exact Hi.
    set (a := String.concat "/" (i0 :: init')) in *.
    assert (Hpa : plain_dir a) by now apply plain_dir_concat.
    pose proof (plain_dir_nonempty a Hpa) as Hane.
    rewrite <- Hcp.
    rewrite (dirname_app a x); try assumption.
    + rewrite (join_two_plain cwd a Hc Hpa).
      change (cwd ++ "/" ++ a ++ "/" ++ x)%string
        with (cwd ++ ("/" ++ a) ++ "/" ++ x)%string.
      rewrite <- string_append_assoc.
      apply dirname_app; try assumption.
      * destruct cwd; [contradiction | discriminate].
      * destruct cwd as [|c0 cwd']; [contradiction|]. simpl.
        destruct cwd'; discriminate.
    + intros Heq. unfold plain_dir in Hpa. rewrite Heq in Hpa. simpl in Hpa.
      apply Forall_inv in Hpa. destruct Hpa as [H _]. now apply H.
Qed.

End JoinTwo.

(** X18. With an output directory and file paths made of ordinary names, every
    file [unpackTree] writes lies in a directory for which it has issued a
    [mkdir] earlier in the run. *)
Theorem unpackTree_writes_into_created_dirs (E : Env) (release : Release)
        (cwd dir : string)
        (paths : list DirEntry) (entry : DirEntry) (files : list FileRecord) :
  getDirectory E (branch release) (Path.join (removelast (Path.split dir)))
  = Return paths ->
  find (fun p => entry_name p =? last (Path.split dir) "") paths = Some entry ->
  getAllFiles E (entry_sha entry) = Return files ->
  Permutation (settle_order E files) files ->
  plain_dir cwd ->
  (forall f, In f files -> plain_dir (file_path f)) ->
  let t := trace (unpackTree E release cwd dir) in
  forall j p data,
    nth_error t j = Some (WriteFile p data) ->
    exists i, i < j /\ nth_error t i = Some (Mkdir (Path.dirname p)).
Proof.
  intros Hd Hf Ha Hperm Hcwd Hplain t j p data Hj.
  assert (Ht : t = map Mkdir (treeDirs cwd files)
                   ++ flat_map (written E release cwd) (settle_order E files))
    by (apply (unpackTree_trace E release cwd dir paths entry files); assumption).
  set (dirs := treeDirs cwd files) in *.
  assert (Hge : length dirs <= j).
  { destruct (Nat.le_gt_cases (length dirs) j) as [H|H]; [exact H|].
    rewrite Ht, nth_error_app1 in Hj by now rewrite length_map.
    rewrite nth_error_map in Hj. destruct (nth_error dirs j); discriminate. }
  assert (Hin : In (WriteFile p data)
                   (flat_map (written E release cwd) (settle_order E files))).
  { rewrite Ht, nth_error_app2 in Hj by now rewrite length_map.
    eapply nth_error_In. exact Hj. }
  apply in_flat_map in Hin. destruct Hin as [g [Hg Hw]].
  apply (Permutation_in _ Hperm) in Hg.
  assert (Hp : p = Path.join [cwd; file_path g]).
  { destruct (written_cases E release cwd g) as [H|[data' H]]; rewrite H in Hw.
    - contradiction.
    - destruct Hw as [Hw|[]]. inversion Hw. reflexivity. }
  assert (Hdir : In (Path.dirname p) dirs).
  { subst p. rewrite (dirname_join cwd (file_path g) Hcwd (Hplain g Hg)).
    unfold dirs, treeDirs.
    apply (proj2 (uniq_spec _)). apply in_map_iff. exists g. auto. }
  apply In_nth_error in Hdir. destruct Hdir as [i Hi].
  assert (Hlt : i < length dirs) by (apply nth_error_Some; congruence).
  exists i. split; [lia|].
  rewrite Ht, nth_error_app1 by now rewrite length_map.
  rewrite nth_error_map, Hi. reflexivity.
Qed.

Lemma unpackTree_writes_into_created_dirs_witness :
  exists i,
    i < 2
    /\ nth_error (trace (unpackTree Sample.world Sample.v6 "content/cli/v6"
                                    "docs/lib/content")) i
       = Some (Mkdir (Path.dirname "content/cli/v6/using-npm/registry.md")).
Proof.
  apply (unpackTree_writes_into_created_dirs
           Sample.world Sample.v6 "content/cli/v6" "docs/lib/content"
           [mkDirEntry "lib" "l1"; mkDirEntry "content" "abc123"]
           (mkDirEntry "content" "abc123") Sample.remoteFiles
           eq_refl eq_refl eq_refl) with (data := "using-npm/registry.md:f2").
  - apply Permutation_sym. apply (Permutation_rev Sample.remoteFiles).
  - unfold plain_dir. simpl.
    repeat constructor; unfold plain; repeat split; discriminate.
  - intros f [<-|[<-|[]]]; unfold plain_dir; simpl;
      repeat constructor; unfold plain; repeat split; discriminate.
  - reflexivity.
Defined.

(** ** A run that fails at the index pages *)



